(** * raspi-tex.c: the preview buffer pipeline of the LED localizer

    A shallow embedding of [raspberrypi-localizer/src/raspi-tex.c].

    The C file moves camera preview buffers between three parties: the MMAL
    camera port (which fills buffer headers and hands them to
    [preview_output_cb]), the preview worker thread ([preview_worker],
    [preview_process_returned_bufs], [raspitex_draw]) and the controlling
    thread ([raspitex_configure_preview_port], [raspitex_start],
    [raspitex_stop], [raspitex_destroy]).

    Buffer headers are shared, mutable objects addressed by pointers, so the
    model keeps a heap of headers and passes pointers around.  The two
    threads and the camera interleave at the granularity of their accesses to
    shared data (the two MMAL queues and [preview_stop]); a run is a list of
    actions.  Every call of a collaborator that lives outside this file
    (EGL/GL, the scene code [sbpp_*], [raspitexutil_*], the MMAL port) takes
    its outcome from an [EXT] record carried by the action, and leaves an
    event in the trace of the world. *)

From Stdlib Require Import ZArith List Bool Lia SpecFloat.
Import ListNotations.
Local Open Scope Z_scope.

(** ** C doubles

    IEEE-754 binary64 values with the operations of [SpecFloat], which are
    plain functions on [Z] and compute. *)

Module Double.

Definition prec : Z := 53.
Definition emax : Z := 1024.

Definition double := spec_float.

(** [(double) z] for an integer [z]: rounding to nearest, ties to even. *)
Definition of_int (z : Z) : double := binary_normalize prec emax z 0 false.

Definition div (a b : double) : double := SFdiv prec emax a b.
Definition mul (a b : double) : double := SFmul prec emax a b.
Definition sub (a b : double) : double := SFsub prec emax a b.
Definition ltb (a b : double) : bool := SFltb a b.
Definition leb (a b : double) : bool := SFleb a b.

Definition zero : double := S754_zero false.

(** [(int64_t) f]: truncation towards zero.  The conversion of a NaN or an
    infinity is undefined in C; the model gives 0 there. *)
Definition to_int64 (f : double) : Z :=
  match f with
  | S754_finite s m e =>
      let a := if 0 <=? e then Z.shiftl (Zpos m) e else Z.shiftr (Zpos m) (- e) in
      if s then - a else a
  | _ => 0
  end.

End Double.

Import Double.

(** ** Data *)

(** The address of a buffer header; [option ptr] is a pointer that may be
    [NULL]. *)
Definition ptr := nat.

(** The fields of [MMAL_BUFFER_HEADER_T] that this file reads or writes.
    [data] is the opaque handle ([0] is [NULL]). *)
Record MMAL_BUFFER_HEADER_T := mkHeader {
  data : Z;
  length : Z;
  pts : Z;
  dts : Z
}.

(** [None] is [EGL_NO_IMAGE_KHR]; [Some h] an image made from the handle [h]. *)
Definition EGLImageKHR := option Z.

(** The fields of [RASPITEX_STATE] that this file uses in the buffer
    pipeline.  [preview_pool] and [preview_queue] are the two handles
    ([None] is [NULL]); what the pool and the queue hold lives in the world. *)
Record RASPITEX_STATE := mkState {
  preview_stop : Z;
  is_ready : Z;
  preview_buf : option ptr;
  current_buf : option ptr;
  prev_buff_time : double;
  curr_buff_time : double;
  egl_image : EGLImageKHR;
  preview_pool : option nat;
  preview_queue : option nat
}.

Definition set_preview_stop (v : Z) (s : RASPITEX_STATE) : RASPITEX_STATE :=
  mkState v (is_ready s) (preview_buf s) (current_buf s) (prev_buff_time s)
          (curr_buff_time s) (egl_image s) (preview_pool s) (preview_queue s).

Definition set_is_ready (v : Z) (s : RASPITEX_STATE) : RASPITEX_STATE :=
  mkState (preview_stop s) v (preview_buf s) (current_buf s) (prev_buff_time s)
          (curr_buff_time s) (egl_image s) (preview_pool s) (preview_queue s).

Definition set_preview_buf (v : option ptr) (s : RASPITEX_STATE) : RASPITEX_STATE :=
  mkState (preview_stop s) (is_ready s) v (current_buf s) (prev_buff_time s)
          (curr_buff_time s) (egl_image s) (preview_pool s) (preview_queue s).

Definition set_current_buf (v : option ptr) (s : RASPITEX_STATE) : RASPITEX_STATE :=
  mkState (preview_stop s) (is_ready s) (preview_buf s) v (prev_buff_time s)
          (curr_buff_time s) (egl_image s) (preview_pool s) (preview_queue s).

Definition set_prev_buff_time (v : double) (s : RASPITEX_STATE) : RASPITEX_STATE :=
  mkState (preview_stop s) (is_ready s) (preview_buf s) (current_buf s) v
          (curr_buff_time s) (egl_image s) (preview_pool s) (preview_queue s).

Definition set_curr_buff_time (v : double) (s : RASPITEX_STATE) : RASPITEX_STATE :=
  mkState (preview_stop s) (is_ready s) (preview_buf s) (current_buf s)
          (prev_buff_time s) v (egl_image s) (preview_pool s) (preview_queue s).

Definition set_egl_image (v : EGLImageKHR) (s : RASPITEX_STATE) : RASPITEX_STATE :=
  mkState (preview_stop s) (is_ready s) (preview_buf s) (current_buf s)
          (prev_buff_time s) (curr_buff_time s) v (preview_pool s) (preview_queue s).

Definition set_preview_pool (v : option nat) (s : RASPITEX_STATE) : RASPITEX_STATE :=
  mkState (preview_stop s) (is_ready s) (preview_buf s) (current_buf s)
          (prev_buff_time s) (curr_buff_time s) (egl_image s) v (preview_queue s).

Definition set_preview_queue (v : option nat) (s : RASPITEX_STATE) : RASPITEX_STATE :=
  mkState (preview_stop s) (is_ready s) (preview_buf s) (current_buf s)
          (prev_buff_time s) (curr_buff_time s) (egl_image s) (preview_pool s) v.

(** What [gettimeofday] stores. *)
Record timeval := mkTimeval { tv_sec : Z; tv_usec : Z }.

(** ** Events

    One event per call that leaves this file.  The trace of a world lists
    them newest first. *)
Inductive event :=
| EvBind (buf : ptr)              (* raspitexutil_update_texture returned 0 *)
| EvBindFailed (buf : ptr)        (* raspitexutil_update_texture returned non-zero *)
| EvRelease (buf : ptr)           (* mmal_buffer_header_release *)
| EvRedraw (buf : ptr) (rc : Z)   (* sbpp_redraw *)
| EvSwap (buf : ptr) (ok : bool)  (* eglSwapBuffers returned *)
| EvSend (buf : ptr) (ok : bool)  (* mmal_port_send_buffer *)
| EvPut (buf : ptr)               (* mmal_queue_put on the preview queue *)
| EvYield                         (* usleep(0) *)
| EvGlTerm                        (* raspitexutil_gl_term *)
| EvPoolDestroy                   (* mmal_pool_destroy *)
| EvQueueDestroy                  (* mmal_queue_destroy *)
| EvWindowDestroy.                (* raspitexutil_destroy_native_window *)

(** ** Threads *)

(** Where the preview worker stands. *)
Inductive worker_pc :=
| WNone                 (* no thread was created *)
| WStart                (* thread created, before raspitexutil_create_native_window *)
| WLoop                 (* at the test of while (state->preview_stop == 0) *)
| WFeed                 (* at mmal_queue_get(state->preview_pool->queue) *)
| WProcess              (* at mmal_queue_get(state->preview_queue) in
                           preview_process_returned_bufs *)
| WGot (buf : ptr)      (* holding the dequeued buf, at the test of preview_stop *)
| WYield                (* at usleep(0) *)
| WDrain                (* at label end: mmal_queue_get(state->preview_queue) *)
| WTerm                 (* at raspitexutil_gl_term *)
| WExited               (* preview_worker has returned *)
| WFault.               (* a NULL pointer was dereferenced *)

(** Where the controlling thread stands with respect to [raspitex_stop]. *)
Inductive main_pc :=
| MRunning              (* not inside raspitex_stop *)
| MJoining.             (* inside raspitex_stop, blocked in vcos_thread_join *)

(** ** The world *)

Record World := mkWorld {
  st : RASPITEX_STATE;
  heap : ptr -> MMAL_BUFFER_HEADER_T;   (* the buffer headers *)
  pool_queue : list ptr;                (* state->preview_pool->queue: free headers *)
  queue : list ptr;                     (* state->preview_queue: filled headers *)
  port : list ptr;                      (* headers the camera port holds *)
  wpc : worker_pc;
  mpc : main_pc;
  trace : list event
}.

Definition upd_st (f : RASPITEX_STATE -> RASPITEX_STATE) (w : World) : World :=
  mkWorld (f (st w)) (heap w) (pool_queue w) (queue w) (port w) (wpc w) (mpc w) (trace w).

Definition set_heap (h : ptr -> MMAL_BUFFER_HEADER_T) (w : World) : World :=
  mkWorld (st w) h (pool_queue w) (queue w) (port w) (wpc w) (mpc w) (trace w).

Definition set_pool_queue (l : list ptr) (w : World) : World :=
  mkWorld (st w) (heap w) l (queue w) (port w) (wpc w) (mpc w) (trace w).

Definition set_queue (l : list ptr) (w : World) : World :=
  mkWorld (st w) (heap w) (pool_queue w) l (port w) (wpc w) (mpc w) (trace w).

Definition set_port (l : list ptr) (w : World) : World :=
  mkWorld (st w) (heap w) (pool_queue w) (queue w) l (wpc w) (mpc w) (trace w).

Definition set_wpc (pc : worker_pc) (w : World) : World :=
  mkWorld (st w) (heap w) (pool_queue w) (queue w) (port w) pc (mpc w) (trace w).

Definition set_mpc (pc : main_pc) (w : World) : World :=
  mkWorld (st w) (heap w) (pool_queue w) (queue w) (port w) (wpc w) pc (trace w).

Definition emit (e : event) (w : World) : World :=
  mkWorld (st w) (heap w) (pool_queue w) (queue w) (port w) (wpc w) (mpc w) (e :: trace w).

(** Writing one header. *)
Definition store (p : ptr) (h : MMAL_BUFFER_HEADER_T) (w : World) : World :=
  set_heap (fun q => if Nat.eqb q p then h else heap w q) w.

(** ** Collaborators outside this file *)

(** The outcomes of the calls that leave this file, as far as this file
    looks at them.  An action of a run carries one such record; a call made
    during that action reads its outcome there. *)
Record EXT := mkExt {
  thread_created : bool;                 (* vcos_thread_create gave VCOS_SUCCESS *)
  window_rc : Z;                         (* raspitexutil_create_native_window *)
  init_rc : Z;                           (* sbpp_init *)
  init_is_ready : Z;                     (* is_ready as the worker's start-up leaves it *)
  update_texture_rc : Z;                 (* raspitexutil_update_texture *)
  update_texture_image : EGLImageKHR;    (* egl_image as that call leaves it *)
  redraw_rc : Z;                         (* sbpp_redraw *)
  swap_ok : bool;                        (* eglSwapBuffers gave EGL_TRUE *)
  send_ok : bool                         (* mmal_port_send_buffer gave MMAL_SUCCESS *)
}.

(** MMAL queues are FIFO: [mmal_queue_get] takes the head without blocking
    and gives [NULL] on an empty queue, [mmal_queue_put] adds at the tail. *)
Definition mmal_queue_get (q : list ptr) : option (ptr * list ptr) :=
  match q with
  | [] => None
  | buf :: rest => Some (buf, rest)
  end.

Definition mmal_queue_put (buf : ptr) (w : World) : World :=
  emit (EvPut buf) (set_queue (queue w ++ [buf]) w).

(** Releasing a header puts it back on the queue of free headers of its
    pool. *)
Definition mmal_buffer_header_release (buf : ptr) (w : World) : World :=
  emit (EvRelease buf) (set_pool_queue (pool_queue w ++ [buf]) w).

(** A header sent with success is held by the port until the camera hands it
    to the callback. *)
Definition mmal_port_send_buffer (x : EXT) (buf : ptr) (w : World) : World :=
  emit (EvSend buf (send_ok x))
       (if send_ok x then set_port (port w ++ [buf]) w else w).

Definition mmal_pool_destroy (w : World) : World :=
  emit EvPoolDestroy (set_pool_queue [] w).

Definition mmal_queue_destroy (w : World) : World :=
  emit EvQueueDestroy (set_queue [] w).

(** Modelled from the spec: [raspitexutil_update_texture] is the spec's
    [bindImage(state, bufferHandle) -> Status], defined in raspi-tex-util.c.
    It binds the handle to the GPU image: of the fields modelled here it
    writes [egl_image] only. *)
Definition raspitexutil_update_texture (x : EXT) (buf : ptr) (w : World) : Z * World :=
  (update_texture_rc x,
   emit (if update_texture_rc x =? 0 then EvBind buf else EvBindFailed buf)
        (upd_st (set_egl_image (update_texture_image x)) w)).

(** Modelled from the spec: [sbpp_redraw] is the spec's
    [redrawScene(state) -> Status], defined with the scene code.  It draws
    with the bound image and writes none of the fields modelled here. *)
Definition sbpp_redraw (x : EXT) (buf : ptr) (w : World) : Z * World :=
  (redraw_rc x, emit (EvRedraw buf (redraw_rc x)) w).

Definition eglSwapBuffers (x : EXT) (buf : ptr) (w : World) : World :=
  emit (EvSwap buf (swap_ok x)) w.

(** Modelled from the spec: [raspitexutil_gl_term] is the spec's
    [destroyGraphicsContext(state)] and [raspitexutil_destroy_native_window]
    its [destroyNativeWindow(state)], both defined in raspi-tex-util.c. *)
Definition raspitexutil_gl_term (w : World) : World := emit EvGlTerm w.

Definition raspitexutil_destroy_native_window (w : World) : World :=
  emit EvWindowDestroy w.

(** ** raspitex_draw *)

Definition check_egl_image (state : RASPITEX_STATE) : Z :=
  match egl_image state with
  | None => -1
  | Some _ => 0
  end.

(** Lines 156-157: [((double) pts) / 1000.0], then
    [t *= (1 - 2 * (t < 0))]. *)
Definition frame_time (pts : Z) : double :=
  let t := div (of_int pts) (of_int 1000) in
  mul t (of_int (1 - 2 * (if ltb t zero then 1 else 0))).

(** Lines 154-157. *)
Definition stamp_frame (buf : ptr) (pts : Z) (s : RASPITEX_STATE) : RASPITEX_STATE :=
  let s := set_current_buf (Some buf) s in
  let s := set_prev_buff_time (curr_buff_time s) s in
  set_curr_buff_time (frame_time pts) s.

(** The result is the return code and the world the call leaves; [None]
    where the C function reads [pts] through a [NULL] [current_buf]. *)
Definition raspitex_draw (x : EXT) (buf : option ptr) (w : World) : option (Z * World) :=
  let '(rc, w) :=
    match buf with
    | Some b =>
        let '(rc, w) :=
          if is_ready (st w) =? 0 then (0, w)
          else raspitexutil_update_texture x b w in
        if rc =? 0 then
          (* Now return the PREVIOUS MMAL buffer header back to the camera preview. *)
          let w := match preview_buf (st w) with
                   | Some prev => mmal_buffer_header_release prev w
                   | None => w
                   end in
          (0, upd_st (set_preview_buf (Some b)) w)
        else (rc, w)                      (* goto end *)
    | None => (0, w)
    end in
  if rc =? 0 then
    if check_egl_image (st w) =? 0 then
      match buf with
      | None => None
      | Some b =>
          let w := upd_st (stamp_frame b (pts (heap w b))) w in
          let '(rc, w) := sbpp_redraw x b w in
          if rc =? 0 then Some (rc, eglSwapBuffers x b w)
          else Some (rc, w)               (* goto end *)
      end
    else Some (rc, w)
  else Some (rc, w).

(** ** The preview worker *)

(** One step of [preview_process_returned_bufs]: the dequeue, the body for the
    dequeued buffer, or the [usleep(0)].  Leaving to [WLoop] is the return to
    [preview_worker]; on a non-zero code both functions set [preview_stop]. *)
Definition preview_process_returned_bufs (x : EXT) (w : World) : World :=
  match wpc w with
  | WProcess =>
      match mmal_queue_get (queue w) with
      | Some (buf, rest) => set_wpc (WGot buf) (set_queue rest w)
      | None => set_wpc WLoop w
      end
  | WGot buf =>
      if preview_stop (st w) =? 0 then
        match raspitex_draw x (Some buf) w with
        | None => set_wpc WFault w
        | Some (rc, w) =>
            if rc =? 0 then set_wpc WYield w
            else set_wpc WLoop (upd_st (set_preview_stop 1) w)
        end
      else set_wpc WYield w
  | WYield => set_wpc WProcess (emit EvYield w)
  | _ => w
  end.

(** One step of [preview_worker]. *)
Definition preview_worker (x : EXT) (w : World) : World :=
  match wpc w with
  | WNone | WExited | WFault => w
  | WStart =>
      let w := upd_st (set_is_ready (init_is_ready x)) w in
      if window_rc x =? 0 then
        if init_rc x =? 0 then set_wpc WLoop w else set_wpc WDrain w
      else set_wpc WDrain w
  | WLoop =>
      if preview_stop (st w) =? 0 then set_wpc WFeed w else set_wpc WDrain w
  | WFeed =>
      (* Send empty buffers to camera preview port *)
      match mmal_queue_get (pool_queue w) with
      | Some (buf, rest) => mmal_port_send_buffer x buf (set_pool_queue rest w)
      | None => set_wpc WProcess w
      end
  | WProcess | WGot _ | WYield => preview_process_returned_bufs x w
  | WDrain =>
      (* Make sure all buffers are returned on exit *)
      match mmal_queue_get (queue w) with
      | Some (buf, rest) => mmal_buffer_header_release buf (set_queue rest w)
      | None => set_wpc WTerm w
      end
  | WTerm => set_wpc WExited (raspitexutil_gl_term w)
  end.

(** ** The camera callback *)

Definition set_dts (v : Z) (h : MMAL_BUFFER_HEADER_T) : MMAL_BUFFER_HEADER_T :=
  mkHeader (data h) (length h) (pts h) v.

(** Lines 281-286: the time of day in microseconds, through a [double].  The
    integer expression is taken without overflow of [long]. *)
Definition arrival_time (now : timeval) : Z :=
  to_int64 (of_int (tv_sec now * 1000000 + tv_usec now)).

Definition preview_output_cb (buf : ptr) (now : timeval) (w : World) : World :=
  if length (heap w buf) =? 0 then
    mmal_buffer_header_release buf (upd_st (set_preview_stop 1) w)
  else if data (heap w buf) =? 0 then
    mmal_buffer_header_release buf w
  else
    mmal_queue_put buf (store buf (set_dts (arrival_time now) (heap w buf)) w).

(** ** Start, stop, destroy *)

Definition raspitex_set_defaults : RASPITEX_STATE :=
  mkState 0 0 None None zero zero None None None.

Definition raspitex_start (x : EXT) (w : World) : Z * World :=
  if thread_created x then (0, set_wpc WStart w) else (-1, w).

(** [raspitex_stop] up to the point where it returns or blocks: the world it
    gives has [mpc = MJoining] when the call is inside [vcos_thread_join]. *)
Definition raspitex_stop (w : World) : World :=
  if preview_stop (st w) =? 0 then
    set_mpc MJoining (upd_st (set_preview_stop 1) w)
  else w.

(** [vcos_thread_join] returns once the thread function has returned. *)
Definition vcos_thread_join (w : World) : World :=
  match wpc w with
  | WExited => set_mpc MRunning w
  | _ => w
  end.

Definition raspitex_destroy (w : World) : World :=
  let w := match preview_pool (st w) with
           | Some _ => upd_st (set_preview_pool None) (mmal_pool_destroy w)
           | None => w
           end in
  let w := match preview_queue (st w) with
           | Some _ => upd_st (set_preview_queue None) (mmal_queue_destroy w)
           | None => w
           end in
  if is_ready (st w) =? 0 then w else raspitexutil_destroy_native_window w.

(** ** Runs *)

(** The camera hands back a header it holds, filled as [filled] says. *)
Inductive action :=
| AStart (x : EXT)        (* the controlling thread calls raspitex_start *)
| AWorker (x : EXT)       (* the worker takes one step *)
| ADeliver (buf : ptr) (filled : MMAL_BUFFER_HEADER_T) (now : timeval)
                          (* the camera calls preview_output_cb *)
| AStop                   (* the controlling thread calls raspitex_stop *)
| AJoin.                  (* vcos_thread_join completes, if it can *)

Definition holds (l : list ptr) (buf : ptr) : bool := existsb (Nat.eqb buf) l.

Definition step (a : action) (w : World) : World :=
  match a with
  | AStart x =>
      match wpc w, mpc w with
      | WNone, MRunning => snd (raspitex_start x w)
      | _, _ => w
      end
  | AWorker x => preview_worker x w
  | ADeliver buf filled now =>
      if holds (port w) buf then
        preview_output_cb buf now
          (store buf filled (set_port (remove Nat.eq_dec buf (port w)) w))
      else w
  | AStop =>
      match mpc w with
      | MRunning => raspitex_stop w
      | MJoining => w
      end
  | AJoin =>
      match mpc w with
      | MJoining => vcos_thread_join w
      | MRunning => w
      end
  end.

Fixpoint run (sch : list action) (w : World) : World :=
  match sch with
  | [] => w
  | a :: sch => run sch (step a w)
  end.

(** The world after [raspitex_set_defaults] and a successful
    [raspitex_configure_preview_port] whose pool holds the headers [bufs]. *)
Definition configured (bufs : list ptr) : World :=
  mkWorld (set_preview_queue (Some 1%nat) (set_preview_pool (Some 0%nat) raspitex_set_defaults))
          (fun _ => mkHeader 0 0 0 0) bufs [] [] WNone MRunning [].

(** ** Configuring the preview port *)

(** [MMAL_STATUS_T]: [MMAL_SUCCESS] is 0 and [MMAL_ENOMEM] is 1. *)
Definition MMAL_SUCCESS : Z := 0.
Definition MMAL_ENOMEM : Z := 1.

(** The fields of [MMAL_PORT_T] that [raspitex_configure_preview_port] reads
    or writes, and what its MMAL calls leave on the port: the zero-copy
    parameter, the committed format, and the callback the port was enabled
    with ([userdata] and [enabled_with_cb] are flags: the only values the
    file stores are the state and [preview_output_cb]). *)
Record MMAL_PORT_T := mkPort {
  buffer_num : Z;
  buffer_size : Z;
  buffer_num_recommended : Z;
  buffer_size_recommended : Z;
  zero_copy : bool;
  format_committed : bool;
  userdata : bool;
  enabled_with_cb : bool
}.

(** The outcomes of the MMAL calls of [raspitex_configure_preview_port]: a
    created pool comes with its handle and its headers, a created queue with
    its handle. *)
Record CFG := mkCfg {
  zero_copy_status : Z;                       (* mmal_port_parameter_set_boolean *)
  format_commit_status : Z;                   (* mmal_port_format_commit *)
  pool_created : option (nat * list ptr);     (* mmal_port_pool_create *)
  queue_created : option nat;                 (* mmal_queue_create *)
  enable_status : Z                           (* mmal_port_enable *)
}.

(** The return code, the port and the world the call leaves.  The port is
    passed by pointer in C and updated in place; [state->preview_port] points
    to it from the commit of the format on. *)
Definition raspitex_configure_preview_port (c : CFG) (preview_port : MMAL_PORT_T)
    (w : World) : Z * MMAL_PORT_T * World :=
  let ret (status : Z) := if status =? MMAL_SUCCESS then 0 else -1 in
  let status := zero_copy_status c in
  if negb (status =? MMAL_SUCCESS) then (ret status, preview_port, w)
  else
    let preview_port :=
      mkPort (buffer_num preview_port) (buffer_size preview_port)
             (buffer_num_recommended preview_port)
             (buffer_size_recommended preview_port)
             true (format_committed preview_port) (userdata preview_port)
             (enabled_with_cb preview_port) in
    let status := format_commit_status c in
    if negb (status =? MMAL_SUCCESS) then (ret status, preview_port, w)
    else
      let preview_port :=
        mkPort (buffer_num_recommended preview_port)
               (buffer_size_recommended preview_port)
               (buffer_num_recommended preview_port)
               (buffer_size_recommended preview_port)
               true true (userdata preview_port) (enabled_with_cb preview_port) in
      match pool_created c with
      | None => (ret MMAL_ENOMEM, preview_port, upd_st (set_preview_pool None) w)
      | Some (pool, headers) =>
          let w := set_pool_queue headers (upd_st (set_preview_pool (Some pool)) w) in
          match queue_created c with
          | None => (ret MMAL_ENOMEM, preview_port, upd_st (set_preview_queue None) w)
          | Some q =>
              let w := set_queue [] (upd_st (set_preview_queue (Some q)) w) in
              let preview_port :=
                mkPort (buffer_num preview_port) (buffer_size preview_port)
                       (buffer_num_recommended preview_port)
                       (buffer_size_recommended preview_port)
                       true true true (enabled_with_cb preview_port) in
              let status := enable_status c in
              if negb (status =? MMAL_SUCCESS) then (ret status, preview_port, w)
              else
                (ret status,
                 mkPort (buffer_num preview_port) (buffer_size preview_port)
                        (buffer_num_recommended preview_port)
                        (buffer_size_recommended preview_port)
                        true true true true,
                 w)
          end
      end.

(** The world before anything was configured: the state as
    [raspitex_set_defaults] leaves it, no thread, nothing allocated. *)
Definition fresh : World :=
  mkWorld raspitex_set_defaults (fun _ => mkHeader 0 0 0 0) [] [] [] WNone MRunning [].

(** Every MMAL call of the configuration succeeded. *)
Definition all_succeed (c : CFG) : Prop :=
  zero_copy_status c = MMAL_SUCCESS /\
  format_commit_status c = MMAL_SUCCESS /\
  pool_created c <> None /\
  queue_created c <> None /\
  enable_status c = MMAL_SUCCESS.

(** ** Vocabulary of the proofs

    *** Ownership of headers and the header behind the image *)

Definition occ (p : ptr) (l : list ptr) : nat := count_occ Nat.eq_dec l p.
Arguments occ : simpl never.

(** The header the worker has dequeued and not yet passed on. *)
Definition got (w : World) : list ptr :=
  match wpc w with
  | WGot buf => [buf]
  | _ => []
  end.

(** The header kept in [preview_buf]. *)
Definition retained (w : World) : list ptr :=
  match preview_buf (st w) with
  | Some buf => [buf]
  | None => []
  end.

(** In how many places the header [p] is held. *)
Definition owned (p : ptr) (w : World) : nat :=
  (occ p (pool_queue w) + occ p (port w) + occ p (queue w)
   + occ p (got w) + occ p (retained w))%nat.

Definition exclusive (w : World) : Prop :=
  forall p, (owned p w <= 1)%nat.

(** The header behind the GPU image: the one of the latest successful bind. *)
Fixpoint bound_now (tr : list event) : option ptr :=
  match tr with
  | [] => None
  | EvBind buf :: _ => Some buf
  | _ :: past => bound_now past
  end.

(** Every release is of a header that is not behind the image, and every
    swap presents the header that is. *)
Fixpoint disciplined (tr : list event) : Prop :=
  match tr with
  | [] => True
  | e :: past =>
      disciplined past /\
      match e with
      | EvRelease buf => bound_now past <> Some buf
      | EvSwap buf _ => bound_now past = Some buf
      | _ => True
      end
  end.

Definition starting (w : World) : Prop :=
  wpc w = WNone \/ wpc w = WStart \/ is_ready (st w) = 0.

Record Inv (w : World) : Prop := mkInv {
  inv_exclusive : exclusive w;
  inv_bound : forall p, bound_now (trace w) = Some p -> preview_buf (st w) = Some p;
  inv_unbound : starting w -> bound_now (trace w) = None /\ egl_image (st w) = None;
  inv_disciplined : disciplined (trace w)
}.

(** *** What the preview queue holds *)



(** *** Stopping *)

(** The specification: when [raspitex_stop] has returned, the worker thread
    has exited. *)
Definition stop_waits_for_worker (w : World) : Prop :=
  let w' := raspitex_stop w in
  mpc w' = MRunning -> wpc w' = WExited.

(** The controlling thread is blocked in the join, or the worker has exited. *)
Definition joined (w : World) : Prop := mpc w = MJoining \/ wpc w = WExited.

(** *** Failures while drawing *)

(** The specification: a step of the worker in which [eglSwapBuffers] failed
    sets [preview_stop] and leaves the loop. *)
Definition present_failure_is_fatal (x : EXT) (w : World) : Prop :=
  let w' := preview_worker x w in
  forall b new, trace w' = new ++ trace w -> In (EvSwap b false) new ->
  preview_stop (st w') <> 0 /\ wpc w' = WLoop.

(** *** Yielding *)

(** The events of [w'] that [w] does not have yet. *)
Definition new_events_since (w w' : World) : list event :=
  firstn (List.length (trace w') - List.length (trace w)) (trace w').

(** The specification: when the worker finds the preview queue empty, it
    yields before it is back at the dequeue. *)
Definition idle_retry_yields (w : World) (round : list action) : Prop :=
  wpc w = WProcess -> queue w = [] ->
  Forall (fun a => exists x, a = AWorker x) round -> round <> [] ->
  wpc (run round w) = WProcess ->
  In EvYield (new_events_since w (run round w)).

(** *** Winding down *)

(** The worker thread exists and is before [raspitexutil_gl_term]. *)
Definition running (w : World) : bool :=
  match wpc w with
  | WStart | WLoop | WFeed | WProcess | WGot _ | WYield | WDrain => true
  | WNone | WTerm | WExited | WFault => false
  end.

(** A number of worker steps that is enough to reach the exit once
    [preview_stop] is set and the camera stays quiet. *)
Definition steps_to_exit (w : World) : nat :=
  match wpc w with
  | WNone | WExited | WFault => 0
  | WTerm => 1
  | WDrain => List.length (queue w) + 2
  | WLoop => List.length (queue w) + 3
  | WStart => List.length (queue w) + 4
  | WProcess => 3 * List.length (queue w) + 4
  | WYield => 3 * List.length (queue w) + 5
  | WGot _ => 3 * List.length (queue w) + 6
  | WFeed => List.length (pool_queue w) + 3 * List.length (queue w) + 5
  end%nat.

Definition winding_down (w : World) : Prop :=
  preview_stop (st w) <> 0 /\
  wpc w <> WNone /\ wpc w <> WFault /\
  (wpc w = WTerm \/ wpc w = WExited -> queue w = []).

(** *** Order of frames *)

(** The headers the callback has enqueued, oldest first. *)
Fixpoint enqueued (tr : list event) : list ptr :=
  match tr with
  | [] => []
  | EvPut buf :: past => enqueued past ++ [buf]
  | _ :: past => enqueued past
  end.

(** The headers handed to [sbpp_redraw], oldest first. *)
Fixpoint drawn (tr : list event) : list ptr :=
  match tr with
  | [] => []
  | EvRedraw buf _ :: past => drawn past ++ [buf]
  | _ :: past => drawn past
  end.

(** [subseq l1 l2]: [l1] is [l2] with some elements left out. *)
Inductive subseq {A : Type} : list A -> list A -> Prop :=
| subseq_nil : subseq [] []
| subseq_skip a l1 l2 : subseq l1 l2 -> subseq l1 (a :: l2)
| subseq_take a l1 l2 : subseq l1 l2 -> subseq (a :: l1) (a :: l2).

(** The frames so far: those the worker has dealt with, the one in its hand,
    those still queued; the drawn ones are among the first. *)
Definition in_order (w : World) : Prop :=
  exists done,
    enqueued (trace w) = done ++ got w ++ queue w /\
    subseq (drawn (trace w)) done.

(** *** Where headers are lost *)

(** The three places where the worker lets go of a header without handing
    it to anyone: a failed [mmal_port_send_buffer], a header dequeued after
    [preview_stop] was set, and a failed [raspitexutil_update_texture]. *)
Definition loses (x : EXT) (w : World) (p : ptr) : Prop :=
  (exists rest, wpc w = WFeed /\ pool_queue w = p :: rest /\ send_ok x = false) \/
  (wpc w = WGot p /\ preview_stop (st w) <> 0) \/
  (wpc w = WGot p /\ preview_stop (st w) = 0 /\
   is_ready (st w) <> 0 /\ update_texture_rc x <> 0).

(** *** After the stop flag is set *)



(** *** The loops of the worker *)

(** The headers of [l] whose [mmal_port_send_buffer] succeeded, the outcome
    for the n-th header being that of the n-th step. *)
Definition sent (l : list ptr) (xs : list EXT) : list ptr :=
  map fst (filter (fun bx => send_ok (snd bx)) (combine l xs)).

(** The collaborators let a frame through: the bind succeeds and leaves an
    image, the draw succeeds. *)
Definition draws (x : EXT) : Prop :=
  update_texture_rc x = 0 /\ update_texture_image x <> None /\ redraw_rc x = 0.

(** The last element of a list, if any. *)
Definition last_of (l : list ptr) : option ptr := last (map Some l) None.

(** *** Tearing down *)

(** Nothing is allocated: both handles are [NULL], pool and queue hold
    nothing. *)
Definition unconfigured (w : World) : Prop :=
  preview_pool (st w) = None /\ preview_queue (st w) = None /\
  pool_queue w = [] /\ queue w = [].

(** *** Frame intervals *)

(** The time between the last two frames, as downstream code would take it. *)
Definition elapsed (s : RASPITEX_STATE) : double :=
  sub (curr_buff_time s) (prev_buff_time s).

(** The specification: a frame stamped earlier than the one before it still
    gives an interval that is not negative. *)
Definition interval_not_negative (s : RASPITEX_STATE) : Prop :=
  ltb (elapsed s) zero = false.

(** ** Sample runs *)

Module Sample.

(** Every collaborator succeeds. *)
Definition fine : EXT := mkExt true 0 0 1 0 (Some 7) 0 true true.

(** [raspitexutil_update_texture] fails. *)
Definition bind_fails : EXT := mkExt true 0 0 1 (-1) None 0 true true.

(** [sbpp_redraw] fails. *)
Definition redraw_fails : EXT := mkExt true 0 0 1 0 (Some 7) (-1) true true.

(** [eglSwapBuffers] fails. *)
Definition swap_fails : EXT := mkExt true 0 0 1 0 (Some 7) 0 false true.

Definition frame (t : Z) : MMAL_BUFFER_HEADER_T := mkHeader 7 4096 t 0.
Definition noon : timeval := mkTimeval 1700000000 250000.

(** Three headers. *)
Definition pool3 : list ptr := [0; 1; 2]%nat.

(** Start the worker and let it reach the dequeue with a pool of [n]
    headers sent to the port. *)
Definition warm_up (n : nat) : list action :=
  AStart fine :: repeat (AWorker fine) (n + 3).

(** The camera delivers [buf]; the worker dequeues it, draws and yields. *)
Definition show (x : EXT) (buf : ptr) (t : Z) : list action :=
  [ADeliver buf (frame t) noon; AWorker x; AWorker x; AWorker x].

Definition two_frames : list action :=
  warm_up 3 ++ show fine 0%nat 1000 ++ show fine 1%nat 2000.

Definition three_frames : list action :=
  two_frames ++ show fine 2%nat 1500.

(** The worker is idle at the dequeue, all headers with the port. *)
Definition idle : World := run (warm_up 3) (configured pool3).

(** A frame sits in the preview queue. *)
Definition queued : World :=
  run (warm_up 3 ++ [ADeliver 0%nat (frame 1000) noon]) (configured pool3).

(** The worker holds a dequeued frame and is about to draw it. *)
Definition holding : World := step (AWorker fine) queued.

(** One frame was drawn, then [raspitex_stop] was called. *)
Definition stopping : World :=
  run (warm_up 3 ++ show fine 0%nat 1000 ++ [AStop]) (configured pool3).

(** The worker has set [preview_stop] itself after a failed bind. *)
Definition failed : World := step (AWorker bind_fails) holding.

(** The world a successful draw of the held frame leaves. *)
Definition shown : World :=
  match raspitex_draw fine (Some 0%nat) holding with
  | Some (_, w') => w'
  | None => holding
  end.

(** The worker is about to feed the port: all headers are free. *)
Definition feeding : World :=
  run [AStart fine; AWorker fine; AWorker fine] (configured pool3).

(** The worker is at its exit path with one frame left in the queue. *)
Definition draining : World :=
  run [AWorker fine; ADeliver 1%nat (frame 2000) noon] failed.

(** A pool of one header: a frame is drawn, the controlling thread stops the
    worker and waits for it. *)
Definition one_frame_then_stop : list action :=
  warm_up 1 ++ show fine 0%nat 1000 ++ [AStop] ++ repeat (AWorker fine) 4 ++ [AJoin].

(** The second frame fails to bind; the worker runs to its exit. *)
Definition second_bind_fails : list action :=
  warm_up 3 ++ show fine 0%nat 1000 ++
  [ADeliver 1%nat (frame 2000) noon; AWorker fine; AWorker bind_fails] ++
  repeat (AWorker fine) 3.

(** A port and the outcomes of a configuration in which every call
    succeeds. *)
Definition camera_port : MMAL_PORT_T := mkPort 1 0 3 4096 false false false false.
Definition all_fine : CFG := mkCfg 0 0 (Some (0%nat, pool3)) (Some 1%nat) 0.

End Sample.

(** * Proofs

    ** The invariant of runs *)

Lemma occ_app p l1 l2 : occ p (l1 ++ l2) = (occ p l1 + occ p l2)%nat.
Proof. apply count_occ_app. Qed.

Lemma occ_cons p q l :
  occ p (q :: l) = ((if Nat.eq_dec q p then 1 else 0) + occ p l)%nat.
Proof. unfold occ. simpl. destruct (Nat.eq_dec q p); lia. Qed.

Lemma occ_nil p : occ p [] = 0%nat.
Proof. reflexivity. Qed.

Lemma occ_remove p q l :
  occ p (remove Nat.eq_dec q l) = if Nat.eq_dec q p then 0%nat else occ p l.
Proof.
  induction l as [|a l IH]; cbn [remove].
  - destruct (Nat.eq_dec q p); reflexivity.
  - destruct (Nat.eq_dec q a) as [->|Hqa].
    + rewrite IH, occ_cons. destruct (Nat.eq_dec a p); reflexivity.
    + rewrite !occ_cons, IH.
      destruct (Nat.eq_dec q p), (Nat.eq_dec a p); subst; try congruence; reflexivity.
Qed.

Lemma holds_occ l p : holds l p = true -> (1 <= occ p l)%nat.
Proof.
  unfold holds. intros H. apply existsb_exists in H as (q & Hin & Heq).
  apply Nat.eqb_eq in Heq. subst q.
  apply (count_occ_In Nat.eq_dec) in Hin. unfold occ. lia.
Qed.

(** Counting argument for [exclusive]: [He] is the hypothesis on the world
    before the step. *)
Ltac occs He :=
  let q := fresh "q" in
  let Hown := fresh "Hown" in
  intros q; pose proof (He q) as Hown;
  unfold owned, got, retained in *; simpl in *;
  repeat match goal with
         | E : wpc ?w = _ |- _ => progress (try rewrite E in Hown; try rewrite E)
         | E : preview_buf (st ?w) = _ |- _ => progress (try rewrite E in Hown; try rewrite E)
         | E : pool_queue ?w = _ |- _ => progress (try rewrite E in Hown; try rewrite E)
         | E : queue ?w = _ |- _ => progress (try rewrite E in Hown; try rewrite E)
         end;
  simpl in *;
  rewrite ?occ_app, ?occ_cons, ?occ_nil, ?occ_remove in *;
  repeat match goal with
         | |- context [Nat.eq_dec ?a ?b] => destruct (Nat.eq_dec a b)
         | H : context [Nat.eq_dec ?a ?b] |- _ => destruct (Nat.eq_dec a b)
         end;
  subst; try congruence; try lia.

Lemma configured_Inv bufs : NoDup bufs -> Inv (configured bufs).
Proof.
  intros H. split; simpl; auto; try discriminate.
  intros p. unfold owned, got, retained. simpl. rewrite !occ_nil.
  pose proof (proj1 (NoDup_count_occ Nat.eq_dec bufs) H p). unfold occ. lia.
Qed.

Lemma start_Inv x w : Inv w -> Inv (step (AStart x) w).
Proof.
  intros [He Hb Hu Hd]. simpl.
  destruct (wpc w) eqn:Hpc; try (split; assumption).
  destruct (mpc w); try (split; assumption).
  unfold raspitex_start. destruct (thread_created x); simpl; try (split; assumption).
  split; simpl; auto.
  - occs He.
  - intros _. apply Hu. left. exact Hpc.
Qed.

Lemma stop_Inv w : Inv w -> Inv (step AStop w).
Proof.
  intros [He Hb Hu Hd]. simpl.
  destruct (mpc w); try (split; assumption).
  unfold raspitex_stop. destruct (preview_stop (st w) =? 0); try (split; assumption).
Qed.

Lemma join_Inv w : Inv w -> Inv (step AJoin w).
Proof.
  intros [He Hb Hu Hd]. simpl.
  destruct (mpc w); try (split; assumption).
  unfold vcos_thread_join. destruct (wpc w); split; assumption.
Qed.

Ltac unb Hu :=
  let H := fresh "Hs" in
  intros H; unfold starting in *; simpl in *;
  try (apply Hu; destruct H as [H|[H|H]]; try discriminate; auto; fail).

Ltac fin He Hu :=
  split; simpl; auto; try solve [occs He]; try solve [unb Hu].

Lemma worker_simple_Inv x w :
  Inv w -> (forall b, wpc w <> WGot b) -> Inv (preview_worker x w).
Proof.
  intros [He Hb Hu Hd] Hng. unfold preview_worker, preview_process_returned_bufs.
  destruct (wpc w) eqn:Hpc; try (split; assumption).
  - (* WStart *)
    assert (Hu' : bound_now (trace w) = None /\ egl_image (st w) = None)
      by (apply Hu; right; left; exact Hpc).
    destruct (window_rc x =? 0), (init_rc x =? 0); fin He Hu.
  - (* WLoop *)
    destruct (preview_stop (st w) =? 0); fin He Hu.
  - (* WFeed *)
    unfold mmal_queue_get, mmal_port_send_buffer.
    destruct (pool_queue w) as [|b rest] eqn:Hpq.
    + fin He Hu.
    + destruct (send_ok x); fin He Hu.
  - (* WProcess *)
    unfold mmal_queue_get.
    destruct (queue w) as [|b rest] eqn:Hq; fin He Hu.
  - exfalso. eapply Hng. reflexivity.
  - (* WYield *)
    fin He Hu.
  - (* WDrain *)
    unfold mmal_queue_get, mmal_buffer_header_release.
    destruct (queue w) as [|b rest] eqn:Hq.
    + fin He Hu.
    + fin He Hu.
      split; auto. intros Hbn. apply Hb in Hbn.
      pose proof (He b) as Hq'. unfold owned, retained in Hq'.
      rewrite Hq, Hbn in Hq'. rewrite !occ_cons in Hq'.
      destruct (Nat.eq_dec b b); [lia | congruence].
  - (* WTerm *)
    fin He Hu.
Qed.

Lemma got_not_retained w b prev :
  exclusive w -> wpc w = WGot b -> preview_buf (st w) = Some prev -> b <> prev.
Proof.
  intros He Hpc Hprev E. subst prev. pose proof (He b) as H.
  unfold owned, got, retained in H. rewrite Hpc, Hprev in H.
  rewrite !occ_cons in H. destruct (Nat.eq_dec b b); [lia | congruence].
Qed.

Lemma worker_draw_Inv x w b :
  Inv w -> wpc w = WGot b -> Inv (preview_worker x w).
Proof.
  intros [He Hb Hu Hd] Hpc. unfold preview_worker, preview_process_returned_bufs.
  rewrite Hpc.
  destruct (preview_stop (st w) =? 0); [| fin He Hu].
  unfold raspitex_draw, raspitexutil_update_texture, sbpp_redraw, eglSwapBuffers,
    mmal_buffer_header_release, check_egl_image.
  destruct (is_ready (st w) =? 0) eqn:Hready.
  - apply Z.eqb_eq in Hready.
    destruct (Hu (or_intror (or_intror Hready))) as [Hbn Himg].
    simpl. destruct (preview_buf (st w)) as [prev|] eqn:Hprev; simpl;
      rewrite Himg; simpl; fin He Hu.
    split; auto. rewrite Hbn. discriminate.
  - apply Z.eqb_neq in Hready.
    assert (Hns : forall w', is_ready (st w') = is_ready (st w) ->
                  wpc w' <> WNone -> wpc w' <> WStart -> ~ starting w').
    { intros w' E1 E2 E3 [H|[H|H]]; congruence. }
    simpl. destruct (update_texture_rc x =? 0) eqn:Hrc; simpl.
    + destruct (preview_buf (st w)) as [prev|] eqn:Hprev; simpl;
        destruct (update_texture_image x) as [img|]; simpl;
        try (destruct (redraw_rc x =? 0) eqn:Hrd; simpl; rewrite ?Hrd; simpl);
        fin He Hu;
        try (intros Hs; exfalso; revert Hs; apply Hns; simpl; congruence);
        try (pose proof (got_not_retained w b prev He Hpc Hprev);
             repeat split; auto; congruence).
    + repeat (progress (cbn; rewrite ?Hrc)). fin He Hu;
        try (intros Hs; exfalso; revert Hs; apply Hns; simpl; congruence).
Qed.

Lemma port_not_retained w buf :
  exclusive w -> holds (port w) buf = true -> preview_buf (st w) <> Some buf.
Proof.
  intros He Hh Hprev. apply holds_occ in Hh. pose proof (He buf) as H.
  unfold owned, retained in H. rewrite Hprev in H.
  rewrite !occ_cons in H. destruct (Nat.eq_dec buf buf); [lia | congruence].
Qed.

Lemma deliver_Inv buf filled now w : Inv w -> Inv (step (ADeliver buf filled now) w).
Proof.
  intros [He Hb Hu Hd]. simpl.
  destruct (holds (port w) buf) eqn:Hh; [| split; assumption].
  pose proof (port_not_retained w buf He Hh) as Hnr.
  pose proof (holds_occ _ _ Hh) as Hocc.
  unfold preview_output_cb, mmal_buffer_header_release, mmal_queue_put. simpl.
  rewrite Nat.eqb_refl.
  destruct (length filled =? 0); [| destruct (data filled =? 0)];
    fin He Hu; try (split; auto; intros Hbn; apply Hnr; auto).
Qed.

Lemma step_Inv a w : Inv w -> Inv (step a w).
Proof.
  intros H. destruct a as [x | x | buf filled now | |].
  - apply start_Inv, H.
  - simpl. destruct (wpc w) eqn:Hpc;
      try (apply worker_simple_Inv; [exact H | intros b; rewrite Hpc; discriminate]).
    eapply worker_draw_Inv; eauto.
  - apply deliver_Inv, H.
  - apply stop_Inv, H.
  - apply join_Inv, H.
Qed.

Lemma run_Inv sch : forall w, Inv w -> Inv (run sch w).
Proof.
  induction sch as [|a sch IH]; intros w H; simpl; auto using step_Inv.
Qed.

(** ** Deferred release *)

Lemma bound_now_app mid rest :
  bound_now (mid ++ rest) =
  match bound_now mid with
  | Some q => Some q
  | None => bound_now rest
  end.
Proof.
  induction mid as [|e mid IH]; simpl; auto.
  destruct e; auto.
Qed.

Lemma bound_now_In tr q : bound_now tr = Some q -> In (EvBind q) tr.
Proof.
  induction tr as [|e tr IH]; simpl; [discriminate|].
  destruct e; auto. intros H. left. congruence.
Qed.

Lemma disciplined_app newer older :
  disciplined (newer ++ older) -> disciplined older.
Proof.
  induction newer as [|e newer IH]; simpl; auto. intros [H _]. auto.
Qed.

Lemma disciplined_release newer p older :
  disciplined (newer ++ EvRelease p :: older) -> bound_now older <> Some p.
Proof. intros H. apply disciplined_app in H. simpl in H. tauto. Qed.

Lemma disciplined_swap newer p ok older :
  disciplined (newer ++ EvSwap p ok :: older) -> bound_now older = Some p.
Proof. intros H. apply disciplined_app in H. simpl in H. tauto. Qed.

Ltac prefix_of t tr :=
  match t with
  | _ => let _ := match goal with _ => constr_eq t tr end in constr:(@nil event)
  | ?e :: ?t' => let r := prefix_of t' tr in constr:(e :: r)
  end.

(** From [e1 :: ... :: en :: tr = new ++ tr], what [new] is. *)
Ltac new_events H :=
  match type of H with
  | ?l = ?new ++ ?tr =>
      let pre := prefix_of l tr in
      apply (app_inv_tail tr pre new) in H; subst new
  end.

(** What one call of [raspitex_draw] releases is the header that was in
    [preview_buf] when the call began. *)
Lemma raspitex_draw_releases x b w rc w' :
  raspitex_draw x (Some b) w = Some (rc, w') ->
  forall new p, trace w' = new ++ trace w -> In (EvRelease p) new ->
  preview_buf (st w) = Some p.
Proof.
  unfold raspitex_draw, raspitexutil_update_texture, sbpp_redraw, eglSwapBuffers,
    mmal_buffer_header_release, check_egl_image.
  intros H new p Htr Hin. revert H.
  destruct (is_ready (st w) =? 0); cbn;
    destruct (update_texture_rc x =? 0) eqn:Hrc; cbn; rewrite ?Hrc; cbn;
    destruct (preview_buf (st w)) as [prev|]; cbn;
    destruct (egl_image (st w)); cbn;
    destruct (update_texture_image x); cbn;
    destruct (redraw_rc x =? 0) eqn:Hrd; cbn; rewrite ?Hrd; cbn;
    intros H; inversion H; subst; clear H; cbn in Htr;
    new_events Htr; cbn in Hin; intuition congruence.
Qed.

(** C1 (deferred release).  In every run from the configured state, a header
    is released only when it is no longer behind the GPU image: between the
    swap that presented it and its release another header was bound, and a
    released header is bound again before it is next presented; seen from
    [raspitex_draw], the header a call releases is the one [preview_buf]
    held on entry, never the one passed in. *)
Theorem deferred_release (bufs : list ptr) (sch : list action) :
  NoDup bufs ->
  let w := run sch (configured bufs) in
  (forall newer p older,
     trace w = newer ++ EvRelease p :: older ->
     (forall mid ok old, older = mid ++ EvSwap p ok :: old ->
        exists q, q <> p /\ In (EvBind q) mid) /\
     (forall late ok mid, newer = late ++ EvSwap p ok :: mid ->
        In (EvBind p) mid)) /\
  (forall x b rc w' new p,
     wpc w = WGot b ->
     raspitex_draw x (Some b) w = Some (rc, w') ->
     trace w' = new ++ trace w ->
     In (EvRelease p) new ->
     preview_buf (st w) = Some p /\ p <> b).
Proof.
  intros Hnd w.
  assert (HI : Inv w) by (apply run_Inv, configured_Inv, Hnd).
  destruct HI as [He Hb Hu Hd]. split.
  - intros newer p older Htr. rewrite Htr in Hd. split.
    + intros mid ok old ->.
      pose proof (disciplined_release _ _ _ Hd) as Hrel.
      apply disciplined_app in Hd. simpl in Hd. destruct Hd as [Hd _].
      pose proof (disciplined_swap _ _ _ _ Hd) as Hsw.
      rewrite bound_now_app in Hrel. simpl in Hrel.
      destruct (bound_now mid) as [q|] eqn:Hmid.
      * exists q. split; [congruence | apply bound_now_In, Hmid].
      * congruence.
    + intros late ok mid ->. rewrite <- app_assoc in Hd. simpl in Hd.
      pose proof (disciplined_swap _ _ _ _ Hd) as Hsw.
      apply disciplined_app in Hd. simpl in Hd. destruct Hd as [Hd _].
      pose proof (disciplined_release _ _ _ Hd) as Hrel.
      rewrite bound_now_app in Hsw. simpl in Hsw.
      destruct (bound_now mid) as [q|] eqn:Hmid.
      * inversion Hsw; subst. apply bound_now_In, Hmid.
      * congruence.
  - intros x b rc w' new p Hpc Hdraw Htr Hin.
    pose proof (raspitex_draw_releases _ _ _ _ _ Hdraw _ _ Htr Hin) as Hprev.
    split; [exact Hprev|]. intros ->.
    exact (got_not_retained _ _ _ He Hpc Hprev eq_refl).
Qed.

Lemma deferred_release_witness :
  NoDup [0; 1; 2]%nat /\
  exists q, q <> 0%nat /\ In (EvBind q) [EvBind 1%nat; EvPut 1%nat; EvYield].
Proof.
  assert (Hnd : NoDup [0; 1; 2]%nat).
  { repeat constructor; simpl; intuition discriminate. }
  split; [exact Hnd|].
  refine (proj1 (proj1 (deferred_release [0; 1; 2]%nat Sample.two_frames Hnd)
                   [EvYield; EvSwap 1%nat true; EvRedraw 1%nat 0] 0%nat _ _)
            [EvBind 1%nat; EvPut 1%nat; EvYield] true _ _);
    vm_compute; reflexivity.
Defined.

(** ** The camera callback *)

(** X1 (malformed frames).  For every header handed to [preview_output_cb]:
    with a zero length the callback sets [preview_stop] and releases the
    header once, without enqueuing it; otherwise, with a [NULL] data handle,
    it releases the header once and leaves [preview_stop] and the queue as
    they were; otherwise it enqueues the header once and does not release
    it. *)
Theorem malformed_frames (buf : ptr) (now : timeval) (w : World) :
  let w' := preview_output_cb buf now w in
  (length (heap w buf) = 0 ->
     preview_stop (st w') = 1 /\
     trace w' = EvRelease buf :: trace w /\
     pool_queue w' = pool_queue w ++ [buf] /\
     queue w' = queue w) /\
  (length (heap w buf) <> 0 -> data (heap w buf) = 0 ->
     preview_stop (st w') = preview_stop (st w) /\
     trace w' = EvRelease buf :: trace w /\
     pool_queue w' = pool_queue w ++ [buf] /\
     queue w' = queue w) /\
  (length (heap w buf) <> 0 -> data (heap w buf) <> 0 ->
     preview_stop (st w') = preview_stop (st w) /\
     trace w' = EvPut buf :: trace w /\
     pool_queue w' = pool_queue w /\
     queue w' = queue w ++ [buf]).
Proof.
  unfold preview_output_cb. cbv zeta.
  destruct (Z.eqb_spec (length (heap w buf)) 0) as [Hl|Hl];
    [| destruct (Z.eqb_spec (data (heap w buf)) 0) as [Hd|Hd]];
    repeat split; intros; try contradiction; try reflexivity; congruence.
Qed.

(** What [raspitex_draw] leaves alone. *)
Lemma raspitex_draw_frame x b w :
  exists rc w',
    raspitex_draw x (Some b) w = Some (rc, w') /\
    heap w' = heap w /\ queue w' = queue w /\ port w' = port w /\
    wpc w' = wpc w /\ mpc w' = mpc w /\
    preview_stop (st w') = preview_stop (st w) /\
    is_ready (st w') = is_ready (st w).
Proof.
  unfold raspitex_draw, raspitexutil_update_texture, sbpp_redraw, eglSwapBuffers,
    mmal_buffer_header_release, check_egl_image.
  destruct (is_ready (st w) =? 0); cbn;
    destruct (update_texture_rc x =? 0) eqn:Hrc; cbn; rewrite ?Hrc; cbn;
    destruct (preview_buf (st w)) as [prev|]; cbn;
    destruct (egl_image (st w)); cbn;
    destruct (update_texture_image x); cbn;
    destruct (redraw_rc x =? 0) eqn:Hrd; cbn; rewrite ?Hrd; cbn;
    eexists; eexists; (split; [reflexivity|]); cbn; repeat split; reflexivity.
Qed.









(** ** Destroying *)

(** X3 (destroying twice).  After [raspitex_destroy] the pool and queue
    handles are [NULL]; a second call destroys neither a pool nor a queue
    and leaves the two handles, and what the pool and the queue hold, as
    the first call left them. *)
Theorem destroy_twice (w : World) :
  let w1 := raspitex_destroy w in
  let w2 := raspitex_destroy w1 in
  preview_pool (st w1) = None /\
  preview_queue (st w1) = None /\
  preview_pool (st w2) = preview_pool (st w1) /\
  preview_queue (st w2) = preview_queue (st w1) /\
  pool_queue w2 = pool_queue w1 /\
  queue w2 = queue w1 /\
  forall new, trace w2 = new ++ trace w1 ->
    ~ In EvPoolDestroy new /\ ~ In EvQueueDestroy new.
Proof.
  unfold raspitex_destroy, mmal_pool_destroy, mmal_queue_destroy,
    raspitexutil_destroy_native_window.
  destruct (preview_pool (st w)) eqn:Hp;
    destruct (preview_queue (st w)) eqn:Hq;
    destruct (is_ready (st w) =? 0) eqn:Hr;
    repeat (progress (cbn; rewrite ?Hp, ?Hq, ?Hr));
    repeat (split; [reflexivity|]);
    intros new H; new_events H; cbn; intuition discriminate.
Qed.

(** X4 (destroy is nil-safe).  [raspitex_destroy] destroys the pool exactly
    when its handle is set, the queue exactly when its handle is set and the
    native window exactly when [is_ready] is set, each at most once; it
    leaves both handles [NULL], and on a state where none of the three is set
    it does nothing at all. *)
Theorem destroy_is_nil_safe (w : World) :
  let w' := raspitex_destroy w in
  preview_pool (st w') = None /\ preview_queue (st w') = None /\
  (exists new,
     trace w' = new ++ trace w /\ NoDup new /\
     (In EvPoolDestroy new <-> preview_pool (st w) <> None) /\
     (In EvQueueDestroy new <-> preview_queue (st w) <> None) /\
     (In EvWindowDestroy new <-> is_ready (st w) <> 0)) /\
  (preview_pool (st w) = None -> preview_queue (st w) = None ->
   is_ready (st w) = 0 -> w' = w).
Proof.
  cbv zeta.
  unfold raspitex_destroy, mmal_pool_destroy, mmal_queue_destroy,
    raspitexutil_destroy_native_window.
  destruct (preview_pool (st w)) eqn:Hp;
    destruct (preview_queue (st w)) eqn:Hq;
    destruct (Z.eqb_spec (is_ready (st w)) 0) as [Hr|Hr];
    repeat (progress (cbn; rewrite ?Hp, ?Hq;
                      try rewrite (proj2 (Z.eqb_eq _ _) Hr);
                      try rewrite (proj2 (Z.eqb_neq _ _) Hr))).
  all: split; [reflexivity|]; split; [reflexivity|]; split;
       [| intros; try discriminate; try contradiction; try reflexivity].
  all: match goal with
       | |- exists new, ?t = new ++ ?tr /\ _ =>
           let pre := prefix_of t tr in exists pre
       end.
  all: split; [reflexivity|]; split;
       [repeat constructor; cbn; intuition discriminate|].
  all: cbn; intuition (try discriminate; try congruence).
Qed.

(** ** Stopping *)

Lemma worker_stop_stays x w :
  preview_stop (st w) <> 0 -> preview_stop (st (preview_worker x w)) <> 0.
Proof.
  intros H. unfold preview_worker, preview_process_returned_bufs.
  destruct (wpc w) eqn:Hpc; try exact H.
  - destruct (window_rc x =? 0), (init_rc x =? 0); exact H.
  - destruct (preview_stop (st w) =? 0); exact H.
  - destruct (pool_queue w); cbn; [exact H|].
    unfold mmal_port_send_buffer. destruct (send_ok x); exact H.
  - destruct (queue w); exact H.
  - destruct (preview_stop (st w) =? 0); [|exact H].
    destruct (raspitex_draw_frame x buf w) as (rc & w' & -> & _ & _ & _ & _ & _ & Hs & _).
    destruct (rc =? 0); cbn; [rewrite Hs; exact H | discriminate].
  - destruct (queue w); exact H.
Qed.

Lemma step_stop_stays a w :
  preview_stop (st w) <> 0 -> preview_stop (st (step a w)) <> 0.
Proof.
  intros H. destruct a as [x | x | buf filled now | |]; simpl.
  - destruct (wpc w); auto. destruct (mpc w); auto.
    unfold raspitex_start. destruct (thread_created x); auto.
  - apply worker_stop_stays, H.
  - destruct (holds (port w) buf); auto.
    unfold preview_output_cb. cbn. rewrite Nat.eqb_refl.
    destruct (length filled =? 0); [cbn; discriminate|].
    destruct (data filled =? 0); exact H.
  - destruct (mpc w); auto. unfold raspitex_stop.
    destruct (preview_stop (st w) =? 0); [cbn; discriminate | exact H].
  - destruct (mpc w); auto. unfold vcos_thread_join. destruct (wpc w); exact H.
Qed.

Lemma run_stop_stays sch : forall w,
  preview_stop (st w) <> 0 -> preview_stop (st (run sch w)) <> 0.
Proof.
  induction sch as [|a sch IH]; intros w H; simpl; auto using step_stop_stays.
Qed.

Lemma worker_mpc x w : mpc (preview_worker x w) = mpc w.
Proof.
  unfold preview_worker, preview_process_returned_bufs.
  destruct (wpc w) eqn:Hpc; try reflexivity.
  - destruct (window_rc x =? 0), (init_rc x =? 0); reflexivity.
  - destruct (preview_stop (st w) =? 0); reflexivity.
  - destruct (pool_queue w); cbn; [reflexivity|].
    unfold mmal_port_send_buffer. destruct (send_ok x); reflexivity.
  - destruct (queue w); reflexivity.
  - destruct (preview_stop (st w) =? 0); [|reflexivity].
    destruct (raspitex_draw_frame x buf w) as (rc & w' & -> & _ & _ & _ & _ & Hm & _).
    destruct (rc =? 0); exact Hm.
  - destruct (queue w); reflexivity.
Qed.

Lemma step_joined a w : joined w -> joined (step a w).
Proof.
  unfold joined. intros H. destruct a as [x | x | buf filled now | |]; simpl.
  - destruct (wpc w) eqn:Hpc; try (rewrite Hpc; exact H).
    destruct (mpc w) eqn:Hm; [| rewrite Hm, Hpc; exact H].
    destruct H; discriminate.
  - destruct H as [H|H].
    + left. rewrite worker_mpc. exact H.
    + right. unfold preview_worker. rewrite H. exact H.
  - destruct (holds (port w) buf); auto.
    unfold preview_output_cb. cbn. rewrite Nat.eqb_refl.
    destruct (length filled =? 0); [exact H|].
    destruct (data filled =? 0); exact H.
  - destruct (mpc w) eqn:Hm; [| rewrite Hm; exact H]. unfold raspitex_stop.
    destruct (preview_stop (st w) =? 0); [left; reflexivity|].
    rewrite Hm. exact H.
  - destruct (mpc w) eqn:Hm; [rewrite Hm; exact H|]. unfold vcos_thread_join.
    destruct (wpc w) eqn:Hpc; cbn; rewrite ?Hm, ?Hpc; auto.
Qed.

Lemma run_joined sch : forall w, joined w -> joined (run sch w).
Proof.
  induction sch as [|a sch IH]; intros w H; simpl; auto using step_joined.
Qed.

(** X5 (stopping).  [raspitex_stop] leaves [preview_stop] set, and it stays
    set, so that any later call changes nothing.  A call that finds the flag
    clear blocks in [vcos_thread_join], and the controlling thread goes on
    only once the worker has exited; a call that finds the flag set returns
    at once and joins nothing. *)
Theorem stop_semantics (w : World) (sch : list action) :
  mpc w = MRunning ->
  let w1 := raspitex_stop w in
  let w2 := run sch w1 in
  preview_stop (st w1) <> 0 /\
  preview_stop (st w2) <> 0 /\
  raspitex_stop w2 = w2 /\
  (preview_stop (st w) = 0 ->
     mpc w1 = MJoining /\ (mpc w2 = MRunning -> wpc w2 = WExited)) /\
  (preview_stop (st w) <> 0 -> w1 = w).
Proof.
  intros Hm w1 w2.
  assert (H1 : preview_stop (st w1) <> 0).
  { unfold w1, raspitex_stop.
    destruct (Z.eqb_spec (preview_stop (st w)) 0); [cbn; discriminate | assumption]. }
  assert (H2 : preview_stop (st w2) <> 0) by (apply run_stop_stays, H1).
  repeat split; auto.
  - unfold raspitex_stop. apply Z.eqb_neq in H2. rewrite H2. reflexivity.
  - unfold w1, raspitex_stop. rewrite H. reflexivity.
  - intros Hret.
    assert (Hj : joined w2).
    { apply run_joined. left. unfold w1, raspitex_stop. rewrite H. reflexivity. }
    destruct Hj as [Hj|Hj]; [congruence | exact Hj].
  - intros H. unfold w1, raspitex_stop. apply Z.eqb_neq in H. rewrite H. reflexivity.
Qed.

(** ** Failures while drawing *)

(** X6 (failures while drawing).  A failure of the draw call [sbpp_redraw] is fatal: the
    code is returned by [raspitex_draw], [preview_stop] is set and the worker
    leaves its loop at the next test.  The result of [eglSwapBuffers] is not
    looked at: after a swap, failed or not, [preview_stop] is still clear and
    the worker goes on to the yield. *)
Theorem draw_failure_is_fatal (x : EXT) (w : World) (b : ptr) :
  wpc w = WGot b -> preview_stop (st w) = 0 ->
  let w1 := preview_worker x w in
  (forall new rc, trace w1 = new ++ trace w -> In (EvRedraw b rc) new -> rc <> 0 ->
     (exists w', raspitex_draw x (Some b) w = Some (rc, w')) /\
     preview_stop (st w1) = 1 /\ wpc w1 = WLoop /\
     forall x', wpc (preview_worker x' w1) = WDrain) /\
  (forall new ok, trace w1 = new ++ trace w -> In (EvSwap b ok) new ->
     preview_stop (st w1) = 0 /\ wpc w1 = WYield).
Proof.
  intros Hpc Hstop w1. subst w1.
  unfold preview_worker, preview_process_returned_bufs. rewrite Hpc, Hstop. cbn.
  unfold raspitex_draw, raspitexutil_update_texture, sbpp_redraw, eglSwapBuffers,
    mmal_buffer_header_release, check_egl_image.
  destruct (is_ready (st w) =? 0) eqn:Hre;
    destruct (update_texture_rc x =? 0) eqn:Hrc;
    destruct (preview_buf (st w)) as [prev|] eqn:Hpb;
    destruct (egl_image (st w)) eqn:Hei;
    destruct (update_texture_image x) eqn:Hui;
    destruct (redraw_rc x =? 0) eqn:Hrd;
    repeat (progress (cbn; rewrite ?Hre, ?Hrc, ?Hpb, ?Hei, ?Hui, ?Hrd)).
  all: split; intros new r Htr Hin; try intros Hr.
  all: new_events Htr; cbn in Hin.
  all: try (solve [intuition (try discriminate; try congruence)]).
  all: repeat match goal with
              | H : _ \/ _ |- _ => destruct H
              | H : False |- _ => destruct H
              end; try discriminate.
  all: match goal with
       | H : EvRedraw _ _ = EvRedraw _ _ |- _ => inversion H; subst; clear H
       end.
  all: try (apply Z.eqb_eq in Hrd; congruence).
  all: split; [eexists; reflexivity | repeat split; reflexivity].
Qed.

(** ** Frame times *)

Lemma binary_round_aux_not_negative mx ex lx :
  ltb (binary_round_aux prec emax false mx ex lx) zero = false.
Proof.
  unfold binary_round_aux.
  destruct (shr_fexp prec emax mx ex lx) as [mrs' e'].
  destruct (shr_fexp prec emax _ e' loc_Exact) as [mrs'' e''].
  destruct (shr_m mrs''); [reflexivity | | reflexivity].
  destruct (e'' <=? emax - prec); reflexivity.
Qed.

Lemma frame_time_cases p :
  let t := div (of_int p) (of_int 1000) in
  frame_time p = if ltb t zero then mul t (of_int (-1)) else mul t (of_int 1).
Proof.
  cbv zeta. unfold frame_time. destruct (ltb _ zero); reflexivity.
Qed.

Lemma frame_time_not_negative p : ltb (frame_time p) zero = false.
Proof.
  rewrite frame_time_cases. cbv zeta.
  destruct (div (of_int p) (of_int 1000)) as [s | s | | s m e] eqn:Ht.
  - destruct s; reflexivity.
  - destruct s; reflexivity.
  - reflexivity.
  - destruct s; cbn; apply binary_round_aux_not_negative.
Qed.

(** X7 (frame times).  A call of [raspitex_draw] that reaches [sbpp_redraw]
    records the header as [current_buf], moves [curr_buff_time] to
    [prev_buff_time] and sets [curr_buff_time] to [t * (1 - 2 * (t < 0))] for
    [t = pts / 1000.0], which is [t] negated when [t] is negative and is
    never negative; a call that does not reach [sbpp_redraw] leaves the two
    times as they were. *)
Theorem frame_times (x : EXT) (b : ptr) (w : World) (rc : Z) (w' : World)
    (new : list event) :
  raspitex_draw x (Some b) w = Some (rc, w') ->
  trace w' = new ++ trace w ->
  let t := div (of_int (pts (heap w b))) (of_int 1000) in
  (forall rc', In (EvRedraw b rc') new ->
     current_buf (st w') = Some b /\
     prev_buff_time (st w') = curr_buff_time (st w) /\
     curr_buff_time (st w') =
       (if ltb t zero then mul t (of_int (-1)) else mul t (of_int 1)) /\
     ltb (curr_buff_time (st w')) zero = false) /\
  ((forall rc', ~ In (EvRedraw b rc') new) ->
     prev_buff_time (st w') = prev_buff_time (st w) /\
     curr_buff_time (st w') = curr_buff_time (st w)).
Proof.
  unfold raspitex_draw, raspitexutil_update_texture, sbpp_redraw, eglSwapBuffers,
    mmal_buffer_header_release, check_egl_image.
  intros H Htr. cbv zeta. revert H.
  destruct (is_ready (st w) =? 0) eqn:Hre;
    destruct (update_texture_rc x =? 0) eqn:Hrc;
    destruct (preview_buf (st w)) as [prev|] eqn:Hpb;
    destruct (egl_image (st w)) eqn:Hei;
    destruct (update_texture_image x) eqn:Hui;
    destruct (redraw_rc x =? 0) eqn:Hrd;
    repeat (progress (cbn; rewrite ?Hre, ?Hrc, ?Hpb, ?Hei, ?Hui, ?Hrd));
    intros H; inversion H; subst; clear H; cbn in Htr; new_events Htr; cbn.
  all: split; [intros rc' Hin | intros Hno].
  all: try (exfalso; intuition discriminate).
  all: try (split; reflexivity).
  all: try (exfalso; eapply Hno; cbn; eauto; fail).
  all: try (split; [reflexivity|]; split; [reflexivity|]; split;
            [apply frame_time_cases | apply frame_time_not_negative]).
Qed.

(** ** Yielding *)



(** ** Headers are conserved *)

Ltac owned_le :=
  unfold owned, got, retained; cbn;
  repeat match goal with
         | E : wpc ?w = _ |- _ => progress (rewrite E)
         | E : preview_buf (st ?w) = _ |- _ => progress (rewrite E)
         | E : pool_queue ?w = _ |- _ => progress (rewrite E)
         | E : queue ?w = _ |- _ => progress (rewrite E)
         end;
  cbn; rewrite ?occ_app, ?occ_cons, ?occ_nil, ?occ_remove;
  repeat match goal with
         | |- context [Nat.eq_dec ?a ?b] => destruct (Nat.eq_dec a b)
         end;
  subst; try congruence; try lia.

Lemma worker_owned_le x w p : (owned p (preview_worker x w) <= owned p w)%nat.
Proof.
  unfold preview_worker, preview_process_returned_bufs.
  destruct (wpc w) eqn:Hpc; try lia.
  - destruct (window_rc x =? 0), (init_rc x =? 0); owned_le.
  - destruct (preview_stop (st w) =? 0); owned_le.
  - unfold mmal_queue_get, mmal_port_send_buffer.
    destruct (pool_queue w) as [|b rest] eqn:Hpq; [owned_le|].
    destruct (send_ok x); owned_le.
  - unfold mmal_queue_get. destruct (queue w) as [|b rest] eqn:Hq; owned_le.
  - destruct (preview_stop (st w) =? 0); [| owned_le].
    unfold raspitex_draw, raspitexutil_update_texture, sbpp_redraw, eglSwapBuffers,
      mmal_buffer_header_release, check_egl_image.
    destruct (is_ready (st w) =? 0) eqn:Hre;
      destruct (update_texture_rc x =? 0) eqn:Hrc;
      destruct (preview_buf (st w)) as [prev|] eqn:Hpb;
      destruct (egl_image (st w)) eqn:Hei;
      destruct (update_texture_image x) eqn:Hui;
      destruct (redraw_rc x =? 0) eqn:Hrd;
      repeat (progress (cbn; rewrite ?Hre, ?Hrc, ?Hpb, ?Hei, ?Hui, ?Hrd));
      owned_le.
  - owned_le.
  - unfold mmal_queue_get, mmal_buffer_header_release.
    destruct (queue w) as [|b rest] eqn:Hq; owned_le.
  - owned_le.
Qed.

Lemma step_owned_le a w p : (owned p (step a w) <= owned p w)%nat.
Proof.
  destruct a as [x | x | buf filled now | |]; simpl.
  - destruct (wpc w) eqn:Hpc; try lia. destruct (mpc w); try lia.
    unfold raspitex_start. destruct (thread_created x); owned_le.
  - apply worker_owned_le.
  - destruct (holds (port w) buf) eqn:Hh; [| lia].
    apply holds_occ in Hh.
    unfold preview_output_cb, mmal_buffer_header_release, mmal_queue_put. cbn.
    rewrite Nat.eqb_refl.
    destruct (length filled =? 0); [| destruct (data filled =? 0)]; owned_le.
  - destruct (mpc w); try lia. unfold raspitex_stop.
    destruct (preview_stop (st w) =? 0); owned_le.
  - destruct (mpc w); try lia. unfold vcos_thread_join.
    destruct (wpc w) eqn:Hpc; owned_le.
Qed.

Lemma run_owned_le sch p : forall w, (owned p (run sch w) <= owned p w)%nat.
Proof.
  induction sch as [|a sch IH]; intros w; simpl; [lia|].
  etransitivity; [apply IH | apply step_owned_le].
Qed.

(** X9 (headers are conserved).  In every run from the configured state a
    header is held in no more places (free queue of the pool, camera port,
    preview queue, hand of the worker, [preview_buf]) than the pool had
    copies of it: no step duplicates a header.  With a pool of distinct
    headers, the header in [preview_buf] is therefore never at the same time
    free in the pool, with the port, in the preview queue or in the hand of
    the worker. *)
Theorem headers_never_multiply (bufs : list ptr) (sch : list action) (p : ptr) :
  let w := run sch (configured bufs) in
  (owned p w <= occ p bufs)%nat /\
  (NoDup bufs -> preview_buf (st w) = Some p ->
   ~ In p (pool_queue w) /\ ~ In p (port w) /\ ~ In p (queue w) /\
   wpc w <> WGot p).
Proof.
  cbv zeta.
  assert (H : (owned p (run sch (configured bufs)) <= occ p bufs)%nat).
  { etransitivity; [apply run_owned_le|].
    unfold owned, got, retained. cbn. rewrite !occ_nil. lia. }
  split; [exact H|]. intros Hnd Hprev.
  pose proof (proj1 (NoDup_count_occ Nat.eq_dec bufs) Hnd p) as H1.
  fold (occ p bufs) in H1.
  unfold owned, got, retained in H. rewrite Hprev in H.
  rewrite (occ_cons p p []) in H. destruct (Nat.eq_dec p p); [|congruence].
  repeat split; intros Hin.
  1-3: apply (count_occ_In Nat.eq_dec) in Hin; unfold occ in *; lia.
  rewrite Hin, occ_cons in H. destruct (Nat.eq_dec p p); [lia | congruence].
Qed.

(** ** Where headers are lost *)

Ltac owned_eq :=
  unfold owned, got, retained; cbn;
  repeat match goal with
         | E : wpc ?w = _ |- _ => progress (rewrite E)
         | E : preview_buf (st ?w) = _ |- _ => progress (rewrite E)
         | E : pool_queue ?w = _ |- _ => progress (rewrite E)
         | E : queue ?w = _ |- _ => progress (rewrite E)
         end;
  cbn; rewrite ?occ_app, ?occ_cons, ?occ_nil;
  repeat match goal with
         | |- context [Nat.eq_dec ?a ?b] => destruct (Nat.eq_dec a b)
         end;
  subst; try congruence; try lia.

Lemma worker_keeps_or_loses x w p :
  (loses x w p /\ S (owned p (preview_worker x w)) = owned p w) \/
  (~ loses x w p /\ owned p (preview_worker x w) = owned p w).
Proof.
  unfold loses, preview_worker, preview_process_returned_bufs.
  destruct (wpc w) eqn:Hpc.
  all: try (right; split; [intros [(r & H & _)|[(H & _)|(H & _)]]; discriminate | ]).
  all: try reflexivity.
  - destruct (window_rc x =? 0), (init_rc x =? 0); owned_eq.
  - destruct (preview_stop (st w) =? 0); owned_eq.
  - unfold mmal_queue_get, mmal_port_send_buffer.
    destruct (pool_queue w) as [|b rest] eqn:Hpq.
    + right. split; [| owned_eq].
      intros [(r & _ & H & _)|[(H & _)|(H & _)]]; discriminate.
    + destruct (send_ok x) eqn:Hsend.
      * right. split; [| owned_eq].
        intros [(r & _ & _ & H)|[(H & _)|(H & _)]]; discriminate.
      * destruct (Nat.eq_dec b p) as [->|Hne].
        -- left. split; [left; exists rest; auto | owned_eq].
        -- right. split; [| owned_eq].
           intros [(r & _ & H & _)|[(H & _)|(H & _)]]; congruence.
  - unfold mmal_queue_get. destruct (queue w) as [|b rest] eqn:Hq; owned_eq.
  - destruct (Z.eqb_spec (preview_stop (st w)) 0) as [Hs|Hs].
    + unfold raspitex_draw, raspitexutil_update_texture, sbpp_redraw, eglSwapBuffers,
        mmal_buffer_header_release, check_egl_image.
      destruct (Z.eqb_spec (is_ready (st w)) 0) as [Hre|Hre];
        destruct (Z.eqb_spec (update_texture_rc x) 0) as [Hrc|Hrc];
        try rewrite (proj2 (Z.eqb_eq _ _) Hrc);
        try rewrite (proj2 (Z.eqb_neq _ _) Hrc);
        destruct (preview_buf (st w)) as [prev|] eqn:Hpb;
        destruct (egl_image (st w)) eqn:Hei;
        destruct (update_texture_image x) eqn:Hui;
        destruct (redraw_rc x =? 0) eqn:Hrd;
        repeat (progress (cbn; rewrite ?Hpb, ?Hei, ?Hui, ?Hrd;
                          try rewrite (proj2 (Z.eqb_eq _ _) Hrc);
                          try rewrite (proj2 (Z.eqb_neq _ _) Hrc)));
        destruct (Nat.eq_dec buf p) as [->|Hne].
      all: try (right; split;
                [intros [(r & H & _)|[(H & H')|(H & _ & H1 & H2)]]; congruence
                | owned_eq]; fail).
      all: left; split; [right; right; auto | owned_eq].
    + destruct (Nat.eq_dec buf p) as [->|Hne].
      * left. split; [right; left; auto | owned_eq].
      * right. split; [| owned_eq].
        intros [(r & H & _)|[(H & _)|(H & _)]]; congruence.
  - owned_eq.
  - unfold mmal_queue_get, mmal_buffer_header_release.
    destruct (queue w) as [|b rest] eqn:Hq; owned_eq.
  - owned_eq.
Qed.

(** X10 (where headers are lost).  A step of the worker lets a header drop
    out of every place exactly when [mmal_port_send_buffer] failed on it,
    when it was dequeued after [preview_stop] was set, or when
    [raspitexutil_update_texture] failed on it; the header is then held in
    one place fewer.  Every other step of the worker keeps every header
    where it is or moves it from one place to another. *)
Theorem worker_loses_header_iff (x : EXT) (w : World) (p : ptr) :
  ((owned p (preview_worker x w) < owned p w)%nat <-> loses x w p) /\
  (loses x w p -> S (owned p (preview_worker x w)) = owned p w) /\
  (~ loses x w p -> owned p (preview_worker x w) = owned p w).
Proof.
  destruct (worker_keeps_or_loses x w p) as [[Hl He]|[Hn He]].
  - repeat split; intros; try lia; try assumption. contradiction.
  - repeat split; intros; try lia; try assumption; try contradiction.
Qed.

(** ** Winding down *)

Ltac wound :=
  cbn;
  repeat match goal with
         | E : wpc ?w = _ |- _ => progress (rewrite E)
         | E : pool_queue ?w = _ |- _ => progress (rewrite E)
         | E : queue ?w = _ |- _ => progress (rewrite E)
         end;
  cbn; repeat split; auto; try discriminate; try lia;
  try (intros [H|H]; discriminate).

Lemma winding_down_step x w :
  winding_down w -> wpc w <> WExited ->
  let w' := preview_worker x w in
  winding_down w' /\ (steps_to_exit w' < steps_to_exit w)%nat /\
  preview_buf (st w') = preview_buf (st w).
Proof.
  intros (Hs & Hn & Hf & Hq) Hne. cbv zeta.
  pose proof (proj2 (Z.eqb_neq _ _) Hs) as Hs'.
  unfold preview_worker, preview_process_returned_bufs, winding_down, steps_to_exit.
  destruct (wpc w) eqn:Hpc; try congruence.
  - destruct (window_rc x =? 0), (init_rc x =? 0); wound.
  - rewrite Hs'. wound.
  - unfold mmal_queue_get, mmal_port_send_buffer.
    destruct (pool_queue w) as [|b rest] eqn:Hpq; [wound|].
    destruct (send_ok x); cbn; rewrite ?Hpc; wound.
  - unfold mmal_queue_get. destruct (queue w) as [|b rest] eqn:Hqq; wound.
  - rewrite Hs'. wound.
  - wound.
  - unfold mmal_queue_get, mmal_buffer_header_release.
    destruct (queue w) as [|b rest] eqn:Hqq; cbn; rewrite ?Hpc; wound.
  - wound.
Qed.

Lemma winding_down_run xs : forall w,
  winding_down w -> (steps_to_exit w <= List.length xs)%nat ->
  let w' := run (map AWorker xs) w in
  wpc w' = WExited /\ queue w' = [] /\ preview_buf (st w') = preview_buf (st w).
Proof.
  induction xs as [|x xs IH]; intros w Hw Hfuel; cbn in *.
  - destruct Hw as (Hs & Hn & Hf & Hq).
    assert (Hpc : wpc w = WExited).
    { unfold steps_to_exit in Hfuel. destruct (wpc w); try congruence; lia. }
    auto.
  - destruct (wpc w) eqn:Hpc;
      try (destruct (winding_down_step x w Hw) as (Hw' & Hlt & Hb);
           [congruence|];
           destruct (IH _ Hw') as (H1 & H2 & H3); [lia|];
           repeat split; auto; congruence).
    assert (E : preview_worker x w = w) by (unfold preview_worker; rewrite Hpc; reflexivity).
    rewrite E. apply IH; [exact Hw|].
    unfold steps_to_exit. rewrite Hpc. lia.
Qed.

(** X11 (the worker winds down).  Once [preview_stop] is set, a worker that
    is anywhere before [raspitexutil_gl_term] needs only finitely many steps
    of its own to return, however the collaborators answer: [steps_to_exit]
    steps are enough when the camera delivers nothing meanwhile.  It then
    leaves the preview queue empty, and the header in [preview_buf] is still
    the one it retained: the exit path does not release it. *)
Theorem worker_exits_after_stop (w : World) (xs : list EXT) :
  preview_stop (st w) <> 0 ->
  running w = true ->
  (steps_to_exit w <= List.length xs)%nat ->
  let w' := run (map AWorker xs) w in
  wpc w' = WExited /\ queue w' = [] /\
  preview_buf (st w') = preview_buf (st w).
Proof.
  intros Hs Hr Hfuel. apply winding_down_run; [|exact Hfuel].
  unfold running in Hr. unfold winding_down.
  destruct (wpc w); try discriminate; repeat split; try discriminate; auto;
    intros [H|H]; discriminate.
Qed.

(** ** Order of frames *)

Lemma subseq_snoc_skip {A} (l1 l2 : list A) a :
  subseq l1 l2 -> subseq l1 (l2 ++ [a]).
Proof.
  induction 1 as [|b l1 l2 H IH|b l1 l2 H IH]; cbn.
  - apply subseq_skip, subseq_nil.
  - apply subseq_skip, IH.
  - apply subseq_take, IH.
Qed.

Lemma subseq_snoc_take {A} (l1 l2 : list A) a :
  subseq l1 l2 -> subseq (l1 ++ [a]) (l2 ++ [a]).
Proof.
  induction 1 as [|b l1 l2 H IH|b l1 l2 H IH]; cbn.
  - apply subseq_take, subseq_nil.
  - apply subseq_skip, IH.
  - apply subseq_take, IH.
Qed.

Ltac same_order done Hpc :=
  exists done; cbn; rewrite ?Hpc;
  repeat match goal with
         | E : queue ?w = _ |- _ => progress (rewrite E)
         end;
  cbn; split; assumption.

Lemma worker_in_order x w : in_order w -> in_order (preview_worker x w).
Proof.
  intros (done & He & Hs). unfold in_order, got in *.
  unfold preview_worker, preview_process_returned_bufs.
  destruct (wpc w) eqn:Hpc; cbn in He; try (same_order done Hpc).
  - destruct (window_rc x =? 0), (init_rc x =? 0); same_order done Hpc.
  - destruct (preview_stop (st w) =? 0); same_order done Hpc.
  - unfold mmal_queue_get, mmal_port_send_buffer.
    destruct (pool_queue w) as [|b rest]; [same_order done Hpc|].
    destruct (send_ok x); same_order done Hpc.
  - unfold mmal_queue_get. destruct (queue w) as [|b rest] eqn:Hq;
      rewrite ?Hq in He; same_order done Hpc.
  - destruct (preview_stop (st w) =? 0).
    + unfold raspitex_draw, raspitexutil_update_texture, sbpp_redraw, eglSwapBuffers,
        mmal_buffer_header_release, check_egl_image.
      destruct (is_ready (st w) =? 0) eqn:Hre;
        destruct (update_texture_rc x =? 0) eqn:Hrc;
        destruct (preview_buf (st w)) as [prev|] eqn:Hpb;
        destruct (egl_image (st w)) eqn:Hei;
        destruct (update_texture_image x) eqn:Hui;
        destruct (redraw_rc x =? 0) eqn:Hrd;
        repeat (progress (cbn; rewrite ?Hre, ?Hrc, ?Hpb, ?Hei, ?Hui, ?Hrd));
        exists (done ++ [buf]); rewrite He; cbn; rewrite <- app_assoc; cbn;
        (split; [reflexivity|]);
        first [apply subseq_snoc_take; assumption | apply subseq_snoc_skip; assumption].
    + exists (done ++ [buf]). cbn. rewrite He, <- app_assoc. cbn.
      split; [reflexivity | apply subseq_snoc_skip; assumption].
  - unfold mmal_queue_get, mmal_buffer_header_release.
    destruct (queue w) as [|b rest] eqn:Hq; rewrite ?Hq in He.
    + same_order done Hpc.
    + exists (done ++ [b]). cbn. rewrite Hpc, He, <- app_assoc. cbn.
      split; [reflexivity | apply subseq_snoc_skip; assumption].
Qed.

Lemma step_in_order a w : in_order w -> in_order (step a w).
Proof.
  intros H. destruct a as [x | x | buf filled now | |]; simpl.
  - destruct (wpc w) eqn:Hpc; auto. destruct (mpc w); auto.
    unfold raspitex_start. destruct (thread_created x); auto.
    destruct H as (done & He & Hs). exists done. unfold got in *.
    rewrite Hpc in He. split; assumption.
  - apply worker_in_order, H.
  - destruct (holds (port w) buf); auto.
    destruct H as (done & He & Hs). exists done. unfold got in *.
    unfold preview_output_cb, mmal_buffer_header_release, mmal_queue_put. cbn.
    rewrite Nat.eqb_refl.
    destruct (length filled =? 0); [| destruct (data filled =? 0)]; cbn;
      try (split; assumption).
    split; [| assumption]. rewrite He, <- !app_assoc. reflexivity.
  - destruct (mpc w); auto. unfold raspitex_stop.
    destruct (preview_stop (st w) =? 0); auto.
  - destruct (mpc w); auto. unfold vcos_thread_join.
    destruct (wpc w) eqn:Hpc; auto.
Qed.

Lemma run_in_order sch : forall w, in_order w -> in_order (run sch w).
Proof.
  induction sch as [|a sch IH]; intros w H; simpl; auto using step_in_order.
Qed.

(** X12 (frames are drawn in order).  In every run from the configured
    state, the headers enqueued by the callback are, in that order, those
    the worker has dealt with, the one in its hand and those still in the
    preview queue; the headers handed to [sbpp_redraw] are, in the same
    order, some of those it has dealt with.  No frame is drawn out of
    order, and none is drawn twice for one enqueue. *)
Theorem frames_in_order (bufs : list ptr) (sch : list action) :
  let w := run sch (configured bufs) in
  exists done,
    enqueued (trace w) = done ++ got w ++ queue w /\
    subseq (drawn (trace w)) done.
Proof.
  apply run_in_order. exists []. split; constructor.
Qed.

(** ** After the stop flag is set *)






Lemma worker_no_fault x w : wpc w <> WFault -> wpc (preview_worker x w) <> WFault.
Proof.
  intros H. unfold preview_worker, preview_process_returned_bufs.
  destruct (wpc w) eqn:Hpc; try (rewrite Hpc; discriminate); try congruence.
  - destruct (window_rc x =? 0), (init_rc x =? 0); discriminate.
  - destruct (preview_stop (st w) =? 0); discriminate.
  - unfold mmal_queue_get, mmal_port_send_buffer.
    destruct (pool_queue w); [discriminate|].
    destruct (send_ok x); cbn; rewrite Hpc; discriminate.
  - destruct (queue w); discriminate.
  - destruct (preview_stop (st w) =? 0); [| discriminate].
    destruct (raspitex_draw_frame x buf w) as (rc & w' & -> & _).
    destruct (rc =? 0); discriminate.
  - discriminate.
  - unfold mmal_queue_get, mmal_buffer_header_release.
    destruct (queue w); cbn; [discriminate|]. rewrite Hpc. discriminate.
  - discriminate.
Qed.

Lemma step_no_fault a w : wpc w <> WFault -> wpc (step a w) <> WFault.
Proof.
  intros H. destruct a as [x | x | buf filled now | |]; simpl.
  - destruct (wpc w) eqn:Hpc; rewrite ?Hpc; try assumption; try discriminate.
    destruct (mpc w); [| rewrite Hpc; discriminate].
    unfold raspitex_start. destruct (thread_created x); cbn; rewrite ?Hpc; discriminate.
  - apply worker_no_fault, H.
  - destruct (holds (port w) buf); [| exact H].
    unfold preview_output_cb. cbn. rewrite Nat.eqb_refl.
    destruct (length filled =? 0); [exact H|]. destruct (data filled =? 0); exact H.
  - destruct (mpc w); [| exact H]. unfold raspitex_stop.
    destruct (preview_stop (st w) =? 0); exact H.
  - destruct (mpc w); [exact H|]. unfold vcos_thread_join.
    destruct (wpc w) eqn:Hpc; cbn; rewrite ?Hpc; try discriminate; congruence.
Qed.

(** X14 (the NULL frame).  [raspitex_draw] reads [pts] through [buf]: called
    with [NULL] while an EGL image exists it dereferences [NULL]; called with
    [NULL] and no image it returns 0 and touches nothing.  The worker only
    ever passes a header it has just dequeued, so in no run from the
    configured state does it dereference [NULL]. *)
Theorem null_frame (x : EXT) (w : World) (bufs : list ptr) (sch : list action) :
  (egl_image (st w) <> None -> raspitex_draw x None w = None) /\
  (egl_image (st w) = None -> raspitex_draw x None w = Some (0, w)) /\
  (forall b, raspitex_draw x (Some b) w <> None) /\
  wpc (run sch (configured bufs)) <> WFault.
Proof.
  repeat split.
  - unfold raspitex_draw, check_egl_image. cbn.
    destruct (egl_image (st w)); [reflexivity | congruence].
  - intros H. unfold raspitex_draw, check_egl_image. cbn. rewrite H. reflexivity.
  - intros b. destruct (raspitex_draw_frame x b w) as (rc & w' & -> & _). discriminate.
  - assert (H : wpc (configured bufs) <> WFault) by discriminate.
    revert H. generalize (configured bufs).
    induction sch as [|a sch IH]; intros w0 H; cbn; auto using step_no_fault.
Qed.

(** ** The loops of the worker *)

Lemma feed_loop l : forall xs w,
  wpc w = WFeed -> pool_queue w = l -> List.length xs = List.length l ->
  let w' := run (map AWorker xs) w in
  wpc w' = WFeed /\ pool_queue w' = [] /\ port w' = port w ++ sent l xs /\
  queue w' = queue w /\ st w' = st w /\ heap w' = heap w.
Proof.
  induction l as [|b l IH]; intros xs w Hpc Hpq Hlen; destruct xs as [|x xs];
    try discriminate; cbn.
  - unfold sent. cbn. rewrite app_nil_r. repeat split; auto.
  - unfold preview_worker. rewrite Hpc. unfold mmal_queue_get. rewrite Hpq.
    unfold mmal_port_send_buffer.
    destruct (IH xs (emit (EvSend b (send_ok x))
                       (if send_ok x
                        then set_port (port (set_pool_queue l w) ++ [b]) (set_pool_queue l w)
                        else set_pool_queue l w)))
      as (H1 & H2 & H3 & H4 & H5 & H6).
    + destruct (send_ok x); exact Hpc.
    + destruct (send_ok x); reflexivity.
    + cbn in Hlen. lia.
    + cbv zeta in *. rewrite H1, H2, H3, H4, H5, H6. unfold sent. cbn.
      destruct (send_ok x); cbn; rewrite <- ?app_assoc; repeat split; reflexivity.
Qed.

(** X18 (feeding the port).  Left alone, the feeding loop of [preview_worker]
    empties the free queue of the pool: every free header goes to
    [mmal_port_send_buffer], in order; those whose send succeeded are then
    with the port, the others are with nobody.  The loop touches neither the
    preview queue nor the state, and the worker goes on to the dequeue. *)
Theorem feed_empties_pool (w : World) (xs : list EXT) (x : EXT) :
  wpc w = WFeed ->
  List.length xs = List.length (pool_queue w) ->
  let w' := run (map AWorker (xs ++ [x])) w in
  wpc w' = WProcess /\ pool_queue w' = [] /\
  port w' = port w ++ sent (pool_queue w) xs /\
  queue w' = queue w /\ st w' = st w.
Proof.
  intros Hpc Hlen. cbv zeta.
  destruct (feed_loop (pool_queue w) xs w Hpc eq_refl Hlen)
    as (H1 & H2 & H3 & H4 & H5 & _).
  assert (E : forall l1 l2 w0, run (l1 ++ l2) w0 = run l2 (run l1 w0)).
  { induction l1; intros; cbn; auto. }
  rewrite map_app, E. cbn. cbv zeta in *.
  unfold preview_worker. rewrite H1. unfold mmal_queue_get. rewrite H2. cbn.
  repeat split; auto.
Qed.

Lemma drain_loop l : forall xs w,
  wpc w = WDrain -> queue w = l -> List.length xs = List.length l ->
  let w' := run (map AWorker xs) w in
  wpc w' = WDrain /\ queue w' = [] /\ pool_queue w' = pool_queue w ++ l /\
  trace w' = rev (map EvRelease l) ++ trace w /\
  port w' = port w /\ st w' = st w.
Proof.
  induction l as [|b l IH]; intros xs w Hpc Hq Hlen; destruct xs as [|x xs];
    try discriminate; cbn.
  - rewrite app_nil_r. repeat split; auto.
  - unfold preview_worker. rewrite Hpc. unfold mmal_queue_get. rewrite Hq.
    destruct (IH xs (mmal_buffer_header_release b (set_queue l w)))
      as (H1 & H2 & H3 & H4 & H5 & H6).
    + exact Hpc.
    + reflexivity.
    + cbn in Hlen. lia.
    + cbv zeta in *. rewrite H1, H2, H3, H4, H5, H6. cbn.
      rewrite <- !app_assoc. repeat split; reflexivity.
Qed.

Lemma drain_done w x :
  wpc w = WDrain -> queue w = [] -> preview_worker x w = set_wpc WTerm w.
Proof.
  intros Hpc Hq. unfold preview_worker. rewrite Hpc. unfold mmal_queue_get.
  rewrite Hq. reflexivity.
Qed.

Lemma term_done w x :
  wpc w = WTerm -> preview_worker x w = set_wpc WExited (emit EvGlTerm w).
Proof. intros Hpc. unfold preview_worker. rewrite Hpc. reflexivity. Qed.

(** X19 (the exit path).  Left alone at the label [end], the worker releases
    every header of the preview queue to the pool, oldest first, then calls
    [raspitexutil_gl_term] and returns.  It releases nothing else: the state,
    and with it the header in [preview_buf], is as it was. *)
Theorem drain_returns_queue (w : World) (xs : list EXT) :
  wpc w = WDrain ->
  List.length xs = (List.length (queue w) + 2)%nat ->
  let w' := run (map AWorker xs) w in
  wpc w' = WExited /\ queue w' = [] /\
  pool_queue w' = pool_queue w ++ queue w /\
  trace w' = EvGlTerm :: rev (map EvRelease (queue w)) ++ trace w /\
  port w' = port w /\ st w' = st w.
Proof.
  intros Hpc Hlen. cbv zeta.
  assert (E : forall l1 l2 w0, run (l1 ++ l2) w0 = run l2 (run l1 w0)).
  { induction l1; intros; cbn; auto. }
  rewrite <- (firstn_skipn (List.length (queue w)) xs), map_app, E.
  destruct (drain_loop (queue w) (firstn (List.length (queue w)) xs) w Hpc eq_refl)
    as (H1 & H2 & H3 & H4 & H5 & H6).
  { rewrite length_firstn. lia. }
  cbv zeta in *.
  destruct (skipn (List.length (queue w)) xs) as [|x1 [|x2 [|x3 rest]]] eqn:Hsk;
    try (apply (f_equal (@List.length EXT)) in Hsk; rewrite length_skipn in Hsk;
         cbn in Hsk; lia).
  cbn [run map step].
  rewrite (drain_done _ x1 H1 H2), term_done by reflexivity. cbn.
  rewrite H3, H4, H5, H6. repeat split; auto.
Qed.

Lemma dequeue_step w x b rest :
  wpc w = WProcess -> queue w = b :: rest ->
  preview_worker x w = set_wpc (WGot b) (set_queue rest w).
Proof.
  intros Hpc Hq. unfold preview_worker, preview_process_returned_bufs.
  rewrite Hpc. unfold mmal_queue_get. rewrite Hq. reflexivity.
Qed.

Lemma yield_step w x :
  wpc w = WYield -> preview_worker x w = set_wpc WProcess (emit EvYield w).
Proof.
  intros Hpc. unfold preview_worker, preview_process_returned_bufs.
  rewrite Hpc. reflexivity.
Qed.

Lemma draw_step w x b :
  wpc w = WGot b -> preview_stop (st w) = 0 -> is_ready (st w) <> 0 -> draws x ->
  let w' := preview_worker x w in
  wpc w' = WYield /\ queue w' = queue w /\ port w' = port w /\
  preview_stop (st w') = 0 /\ is_ready (st w') = is_ready (st w) /\
  drawn (trace w') = drawn (trace w) ++ [b] /\
  preview_buf (st w') = Some b /\
  pool_queue w' = pool_queue w ++ retained w.
Proof.
  intros Hpc Hs Hr (H1 & H2 & H3). cbv zeta.
  unfold preview_worker, preview_process_returned_bufs. rewrite Hpc, Hs. cbn.
  unfold raspitex_draw, raspitexutil_update_texture, sbpp_redraw, eglSwapBuffers,
    mmal_buffer_header_release, check_egl_image, retained.
  apply Z.eqb_neq in Hr. rewrite Hr, H1, H3.
  destruct (update_texture_image x) as [img|] eqn:Hi; [| congruence].
  destruct (preview_buf (st w)) as [prev|] eqn:Hp;
    repeat (progress (cbn; rewrite ?Hi, ?Hp, ?Hs));
    rewrite ?app_nil_r; repeat split; auto.
Qed.

Lemma frame_steps w x b rest :
  wpc w = WProcess -> queue w = b :: rest ->
  preview_stop (st w) = 0 -> is_ready (st w) <> 0 -> draws x ->
  let w' := run (repeat (AWorker x) 3) w in
  wpc w' = WProcess /\ queue w' = rest /\ port w' = port w /\
  preview_stop (st w') = 0 /\ is_ready (st w') = is_ready (st w) /\
  drawn (trace w') = drawn (trace w) ++ [b] /\
  preview_buf (st w') = Some b /\
  pool_queue w' = pool_queue w ++ retained w.
Proof.
  intros Hpc Hq Hs Hr Hx. cbn [repeat run step].
  rewrite (dequeue_step w x b rest Hpc Hq).
  destruct (draw_step (set_wpc (WGot b) (set_queue rest w)) x b eq_refl Hs Hr Hx)
    as (G1 & G2 & G3 & G4 & G5 & G6 & G7 & G8).
  cbv zeta in *. rewrite (yield_step _ x G1).
  set (w2 := preview_worker x (set_wpc (WGot b) (set_queue rest w))) in *.
  clearbody w2. cbn in *.
  rewrite G2, G3, G4, G5, G6, G7, G8. repeat split; reflexivity.
Qed.

Lemma last_of_snoc l b : last_of (l ++ [b]) = Some b.
Proof. unfold last_of. rewrite map_app. cbn. apply last_last. Qed.

Lemma process_loop q : forall w x,
  wpc w = WProcess -> queue w = q ->
  preview_stop (st w) = 0 -> is_ready (st w) <> 0 -> draws x ->
  let w' := run (repeat (AWorker x) (3 * List.length q)) w in
  wpc w' = WProcess /\ queue w' = [] /\ port w' = port w /\
  preview_stop (st w') = 0 /\
  drawn (trace w') = drawn (trace w) ++ q /\
  retained w' = match rev q with b :: _ => [b] | [] => retained w end /\
  pool_queue w' ++ retained w' = pool_queue w ++ retained w ++ q.
Proof.
  induction q as [|b rest IH]; intros w x Hpc Hq Hs Hr Hx.
  - cbn. rewrite !app_nil_r. repeat split; auto.
  - assert (E : forall n m w0, run (repeat (AWorker x) (n + m)) w0 =
                               run (repeat (AWorker x) m) (run (repeat (AWorker x) n) w0)).
    { induction n; intros; cbn; auto. }
    replace (3 * List.length (b :: rest))%nat with (3 + 3 * List.length rest)%nat
      by (cbn [List.length]; lia).
    cbv zeta. rewrite E.
    destruct (frame_steps w x b rest Hpc Hq Hs Hr Hx)
      as (G1 & G2 & G3 & G4 & G5 & G6 & G7 & G8).
    cbv zeta in *.
    destruct (IH (run (repeat (AWorker x) 3) w) x G1 G2 G4) as
      (K1 & K2 & K3 & K4 & K5 & K6 & K7); [congruence | exact Hx |].
    cbv zeta in *. rewrite K1, K2, K3, K4, K5, K7, G3, G6, G8.
    assert (Hret : retained (run (repeat (AWorker x) 3) w) = [b])
      by (unfold retained; rewrite G7; reflexivity).
    rewrite Hret in *. rewrite K6.
    repeat split; auto.
    + rewrite <- app_assoc. reflexivity.
    + cbn [rev]. destruct (rev rest) as [|c l] eqn:Hrev; reflexivity.
    + rewrite <- !app_assoc. reflexivity.
Qed.

Lemma retained_eq w1 w2 :
  retained w1 = retained w2 -> preview_buf (st w1) = preview_buf (st w2).
Proof.
  unfold retained.
  destruct (preview_buf (st w1)), (preview_buf (st w2)); intros H;
    inversion H; reflexivity.
Qed.

Lemma retained_one w b : retained w = [b] -> preview_buf (st w) = Some b.
Proof.
  unfold retained. destruct (preview_buf (st w)); intros H; inversion H; reflexivity.
Qed.

Lemma last_of_retained w : last_of (retained w) = preview_buf (st w).
Proof. unfold last_of, retained. destruct (preview_buf (st w)); reflexivity. Qed.

Lemma removelast_retained w : removelast (retained w) = [].
Proof. unfold retained. destruct (preview_buf (st w)); reflexivity. Qed.

(** X20 (the steady state).  With [preview_stop] clear, [is_ready] set and
    collaborators that let every frame through, [preview_process_returned_bufs]
    left alone draws every queued header, oldest first, three steps a header,
    and returns with the queue empty.  It keeps one header back: the last one
    drawn is in [preview_buf]; the header retained before and all the others
    are free in the pool again, in that order. *)
Theorem process_draws_queue (w : World) (x : EXT) :
  wpc w = WProcess -> preview_stop (st w) = 0 -> is_ready (st w) <> 0 -> draws x ->
  let w' := run (repeat (AWorker x) (3 * List.length (queue w) + 1)) w in
  wpc w' = WLoop /\ queue w' = [] /\ port w' = port w /\
  preview_stop (st w') = 0 /\
  drawn (trace w') = drawn (trace w) ++ queue w /\
  preview_buf (st w') = last_of (retained w ++ queue w) /\
  pool_queue w' = pool_queue w ++ removelast (retained w ++ queue w).
Proof.
  intros Hpc Hs Hr Hx.
  assert (E : forall n m w0, run (repeat (AWorker x) (n + m)) w0 =
                             run (repeat (AWorker x) m) (run (repeat (AWorker x) n) w0)).
  { induction n; intros; cbn; auto. }
  cbv zeta. rewrite E.
  destruct (process_loop (queue w) w x Hpc eq_refl Hs Hr Hx)
    as (K1 & K2 & K3 & K4 & K5 & K6 & K7).
  cbv zeta in *.
  set (w1 := run (repeat (AWorker x) (3 * List.length (queue w))) w) in *.
  clearbody w1. cbn [repeat run step].
  unfold preview_worker, preview_process_returned_bufs. rewrite K1.
  unfold mmal_queue_get. rewrite K2. cbn.
  split; [reflexivity|]. split; [exact K2|]. split; [exact K3|].
  split; [exact K4|]. split; [exact K5|].
  destruct (rev (queue w)) as [|b l] eqn:Hrev;
    apply (f_equal (@rev ptr)) in Hrev; rewrite rev_involutive in Hrev;
    cbn [rev] in Hrev; rewrite Hrev in *.
  - rewrite !app_nil_r in *. rewrite K6 in K7. apply app_inv_tail in K7.
    rewrite last_of_retained, removelast_retained, app_nil_r.
    split; [apply retained_eq, K6 | exact K7].
  - rewrite K6 in K7. rewrite !app_assoc in K7. apply app_inv_tail in K7.
    rewrite !app_assoc, last_of_snoc, removelast_last.
    split; [apply retained_one, K6 | rewrite K7, <- app_assoc; reflexivity].
Qed.

(** ** Every way of stopping *)

Lemma run_app l1 : forall l2 w, run (l1 ++ l2) w = run l2 (run l1 w).
Proof. induction l1 as [|a l1 IH]; intros; cbn; auto. Qed.

Lemma run_workers_mpc xs : forall w, mpc (run (map AWorker xs) w) = mpc w.
Proof.
  induction xs as [|x xs IH]; intros w; cbn; [reflexivity|].
  rewrite IH. apply worker_mpc.
Qed.

(** X21 (every stop ends the worker).  However [preview_stop] comes to be
    set while the worker runs, by the callback at the end of the stream, by
    [raspitex_stop], or by the worker itself after a failed bind or draw,
    the worker left alone then returns within [steps_to_exit] steps with the
    preview queue empty; and a [raspitex_stop] that found the flag clear
    then gets out of its join. *)
Theorem every_stop_ends_the_worker (w : World) (xs : list EXT) :
  running w = true ->
  (forall buf filled now,
     holds (port w) buf = true -> length filled = 0 ->
     let w1 := step (ADeliver buf filled now) w in
     (steps_to_exit w1 <= List.length xs)%nat ->
     wpc (run (map AWorker xs) w1) = WExited /\ queue (run (map AWorker xs) w1) = []) /\
  (preview_stop (st w) = 0 -> mpc w = MRunning ->
   let w1 := step AStop w in
   (steps_to_exit w1 <= List.length xs)%nat ->
   let w2 := run (map AWorker xs ++ [AJoin]) w1 in
   wpc w2 = WExited /\ queue w2 = [] /\ mpc w2 = MRunning) /\
  (forall x b,
     wpc w = WGot b -> preview_stop (st w) = 0 ->
     let w1 := preview_worker x w in
     wpc w1 = WLoop ->
     (steps_to_exit w1 <= List.length xs)%nat ->
     wpc (run (map AWorker xs) w1) = WExited /\ queue (run (map AWorker xs) w1) = []).
Proof.
  intros Hrun. split; [| split].
  - intros buf filled now Hh Hl. cbv zeta. cbn [step]. rewrite Hh.
    unfold preview_output_cb. cbn. rewrite Nat.eqb_refl, Hl. cbn.
    intros Hfuel.
    match type of Hfuel with
    | (steps_to_exit ?W <= _)%nat =>
        destruct (worker_exits_after_stop W xs) as (H1 & H2 & _); auto
    end.
    cbn. discriminate.
  - intros Hs Hm. cbv zeta. cbn [step]. rewrite Hm. unfold raspitex_stop.
    rewrite Hs. cbn. intros Hfuel.
    match type of Hfuel with
    | (steps_to_exit ?W <= _)%nat =>
        destruct (worker_exits_after_stop W xs) as (H1 & H2 & _); auto;
        [cbn; discriminate |];
        pose proof (run_workers_mpc xs W) as Hj
    end.
    rewrite run_app. cbn [run step]. cbv zeta in *. rewrite Hj. cbn.
    unfold vcos_thread_join. rewrite H1. cbn. auto.
  - intros x b Hpc Hs. cbv zeta. intros Hloop Hfuel.
    assert (Hstop : preview_stop (st (preview_worker x w)) <> 0).
    { revert Hloop. unfold preview_worker, preview_process_returned_bufs.
      rewrite Hpc, Hs. cbn.
      destruct (raspitex_draw_frame x b w) as (rc & w' & -> & _).
      destruct (rc =? 0); cbn; [discriminate | intros _; discriminate]. }
    destruct (worker_exits_after_stop (preview_worker x w) xs) as (H1 & H2 & _); auto.
    unfold running. rewrite Hloop. reflexivity.
Qed.

(** ** Exact conversions *)








(** ** Configuring *)

(** X16 (configuring succeeds as a whole).  [raspitex_configure_preview_port]
    returns 0 or -1, and 0 exactly when all five MMAL calls succeeded.  Then
    the port runs in zero-copy mode with its format committed, takes the
    recommended number and size of buffers, and is enabled with the
    callback; the state holds the pool and the queue that were created, all
    headers of the pool are free and the queue is empty. *)
Theorem configure_succeeds_iff (c : CFG) (preview_port : MMAL_PORT_T) (w : World) :
  let '(rc, port', w') := raspitex_configure_preview_port c preview_port w in
  (rc = 0 \/ rc = -1) /\
  (rc = 0 <-> all_succeed c) /\
  (rc = 0 ->
   zero_copy port' = true /\ format_committed port' = true /\
   userdata port' = true /\ enabled_with_cb port' = true /\
   buffer_num port' = buffer_num_recommended preview_port /\
   buffer_size port' = buffer_size_recommended preview_port /\
   exists pool headers q,
     pool_created c = Some (pool, headers) /\ queue_created c = Some q /\
     preview_pool (st w') = Some pool /\ preview_queue (st w') = Some q /\
     pool_queue w' = headers /\ queue w' = []).
Proof.
  unfold raspitex_configure_preview_port, all_succeed, MMAL_SUCCESS, MMAL_ENOMEM.
  destruct (Z.eqb_spec (zero_copy_status c) 0) as [H1|H1]; cbn.
  2: { split; [auto|]. split; [| discriminate]. split; [discriminate | tauto]. }
  destruct (Z.eqb_spec (format_commit_status c) 0) as [H2|H2]; cbn.
  2: { split; [auto|]. split; [| discriminate]. split; [discriminate | tauto]. }
  destruct (pool_created c) as [[pool headers]|] eqn:Hp; cbn.
  2: { split; [auto|]. split; [| discriminate]. split; [discriminate | tauto]. }
  destruct (queue_created c) as [q|] eqn:Hq; cbn.
  2: { split; [auto|]. split; [| discriminate]. split; [discriminate | tauto]. }
  destruct (Z.eqb_spec (enable_status c) 0) as [H5|H5]; cbn.
  2: { split; [auto|]. split; [| discriminate]. split; [discriminate | tauto]. }
  split; [auto|]. split.
  - split; [intros _ | reflexivity]. repeat split; auto; discriminate.
  - intros _. repeat split. exists pool, headers, q. repeat split.
Qed.

(** X17 (a configuration can always be undone).  Started on a state with
    nothing allocated, [raspitex_configure_preview_port] allocates the pool
    exactly when zero-copy, format and pool creation succeeded, and the
    queue exactly when the queue creation succeeded as well: an early
    failure allocates nothing, a late one leaves what was already created.
    It starts no thread and logs no buffer event.  Wherever it stopped,
    [raspitex_destroy] brings the state back to nothing allocated. *)
Theorem configure_then_destroy (c : CFG) (preview_port : MMAL_PORT_T) (w : World) :
  unconfigured w ->
  let '(rc, port', w') := raspitex_configure_preview_port c preview_port w in
  (preview_pool (st w') <> None <->
   zero_copy_status c = MMAL_SUCCESS /\ format_commit_status c = MMAL_SUCCESS /\
   pool_created c <> None) /\
  (preview_queue (st w') <> None <->
   zero_copy_status c = MMAL_SUCCESS /\ format_commit_status c = MMAL_SUCCESS /\
   pool_created c <> None /\ queue_created c <> None) /\
  (enabled_with_cb port' = true -> rc = 0 \/ enabled_with_cb preview_port = true) /\
  trace w' = trace w /\ wpc w' = wpc w /\
  unconfigured (raspitex_destroy w').
Proof.
  intros (Hp & Hq & Hpq & Hqq).
  unfold raspitex_configure_preview_port, unconfigured, MMAL_SUCCESS, MMAL_ENOMEM.
  unfold raspitex_destroy, mmal_pool_destroy, mmal_queue_destroy,
    raspitexutil_destroy_native_window.
  destruct (Z.eqb_spec (zero_copy_status c) 0) as [H1|H1]; cbn;
    [destruct (Z.eqb_spec (format_commit_status c) 0) as [H2|H2]; cbn;
     [destruct (pool_created c) as [[pool headers]|] eqn:Hpc; cbn;
      [destruct (queue_created c) as [q|] eqn:Hqc; cbn;
       [destruct (Z.eqb_spec (enable_status c) 0) as [H5|H5]; cbn |] |] |] |];
    rewrite ?Hp, ?Hq; cbn;
    destruct (is_ready (st w) =? 0); cbn;
    rewrite ?Hp, ?Hq, ?Hpq, ?Hqq;
    repeat split; auto; try discriminate; try tauto; intuition congruence.
Qed.

(** ** Witnesses
    Each theorem above that has a hypothesis, applied to a sample run. *)



Lemma stop_semantics_witness :
  mpc Sample.idle = MRunning /\
  mpc (raspitex_stop Sample.idle) = MJoining /\
  (mpc (run [AWorker Sample.fine] (raspitex_stop Sample.idle)) = MRunning ->
   wpc (run [AWorker Sample.fine] (raspitex_stop Sample.idle)) = WExited).
Proof.
  assert (Hm : mpc Sample.idle = MRunning) by (vm_compute; reflexivity).
  split; [exact Hm|].
  apply (proj1 (proj2 (proj2 (proj2
           (stop_semantics Sample.idle [AWorker Sample.fine] Hm))))).
  vm_compute. reflexivity.
Defined.

Lemma draw_failure_is_fatal_witness :
  wpc Sample.holding = WGot 0%nat /\
  preview_stop (st Sample.holding) = 0 /\
  preview_stop (st (preview_worker Sample.redraw_fails Sample.holding)) = 1 /\
  wpc (preview_worker Sample.redraw_fails Sample.holding) = WLoop.
Proof.
  assert (Hpc : wpc Sample.holding = WGot 0%nat) by (vm_compute; reflexivity).
  assert (Hs : preview_stop (st Sample.holding) = 0) by (vm_compute; reflexivity).
  split; [exact Hpc|]. split; [exact Hs|].
  destruct (proj1 (draw_failure_is_fatal Sample.redraw_fails Sample.holding 0%nat Hpc Hs)
              [EvRedraw 0%nat (-1); EvBind 0%nat] (-1))
    as (_ & H1 & H2 & _).
  - vm_compute. reflexivity.
  - simpl. left. reflexivity.
  - discriminate.
  - split; assumption.
Defined.

Lemma frame_times_witness :
  raspitex_draw Sample.fine (Some 0%nat) Sample.holding = Some (0, Sample.shown) /\
  curr_buff_time (st Sample.shown) = of_int 1 /\
  ltb (curr_buff_time (st Sample.shown)) zero = false.
Proof.
  assert (Hd : raspitex_draw Sample.fine (Some 0%nat) Sample.holding = Some (0, Sample.shown))
    by (vm_compute; reflexivity).
  split; [exact Hd|].
  destruct (proj1 (frame_times Sample.fine 0%nat Sample.holding 0 Sample.shown
                     [EvSwap 0%nat true; EvRedraw 0%nat 0; EvBind 0%nat] Hd
                     ltac:(vm_compute; reflexivity)) 0)
    as (_ & _ & H3 & H4).
  - simpl. right. left. reflexivity.
  - split; [| exact H4]. rewrite H3. vm_compute. reflexivity.
Defined.

Lemma worker_exits_after_stop_witness :
  preview_stop (st Sample.stopping) <> 0 /\
  running Sample.stopping = true /\
  wpc (run (map AWorker (repeat Sample.fine 4)) Sample.stopping) = WExited /\
  preview_buf (st (run (map AWorker (repeat Sample.fine 4)) Sample.stopping)) = Some 0%nat.
Proof.
  assert (Hs : preview_stop (st Sample.stopping) <> 0) by (vm_compute; discriminate).
  assert (Hr : running Sample.stopping = true) by (vm_compute; reflexivity).
  split; [exact Hs|]. split; [exact Hr|].
  destruct (worker_exits_after_stop Sample.stopping (repeat Sample.fine 4) Hs Hr)
    as (H1 & _ & H3).
  - vm_compute. lia.
  - split; [exact H1|]. rewrite H3. vm_compute. reflexivity.
Defined.



Lemma configure_then_destroy_witness :
  unconfigured fresh /\
  unconfigured
    (raspitex_destroy
       (snd (raspitex_configure_preview_port Sample.all_fine Sample.camera_port fresh))).
Proof.
  assert (Hu : unconfigured fresh) by (repeat split).
  split; [exact Hu|].
  pose proof (configure_then_destroy Sample.all_fine Sample.camera_port fresh Hu) as H.
  destruct (raspitex_configure_preview_port Sample.all_fine Sample.camera_port fresh)
    as [[rc port'] w'].
  exact (proj2 (proj2 (proj2 (proj2 (proj2 H))))).
Defined.

Lemma feed_empties_pool_witness :
  wpc Sample.feeding = WFeed /\
  port (run (map AWorker (repeat Sample.fine 3 ++ [Sample.fine])) Sample.feeding)
  = Sample.pool3.
Proof.
  assert (Hpc : wpc Sample.feeding = WFeed) by (vm_compute; reflexivity).
  split; [exact Hpc|].
  destruct (feed_empties_pool Sample.feeding (repeat Sample.fine 3) Sample.fine Hpc)
    as (_ & _ & H & _).
  - vm_compute. reflexivity.
  - rewrite H. vm_compute. reflexivity.
Defined.

Lemma drain_returns_queue_witness :
  wpc Sample.draining = WDrain /\
  pool_queue (run (map AWorker (repeat Sample.fine 3)) Sample.draining) = [1%nat] /\
  wpc (run (map AWorker (repeat Sample.fine 3)) Sample.draining) = WExited.
Proof.
  assert (Hpc : wpc Sample.draining = WDrain) by (vm_compute; reflexivity).
  split; [exact Hpc|].
  destruct (drain_returns_queue Sample.draining (repeat Sample.fine 3) Hpc)
    as (H1 & _ & H3 & _).
  - vm_compute. reflexivity.
  - split; [| exact H1]. rewrite H3. vm_compute. reflexivity.
Defined.

Lemma process_draws_queue_witness :
  wpc Sample.queued = WProcess /\ draws Sample.fine /\
  preview_buf (st (run (repeat (AWorker Sample.fine) 4) Sample.queued)) = Some 0%nat.
Proof.
  assert (Hpc : wpc Sample.queued = WProcess) by (vm_compute; reflexivity).
  assert (Hx : draws Sample.fine) by (repeat split; discriminate).
  split; [exact Hpc|]. split; [exact Hx|].
  destruct (process_draws_queue Sample.queued Sample.fine Hpc)
    as (_ & _ & _ & _ & _ & H & _).
  - vm_compute. reflexivity.
  - vm_compute. discriminate.
  - exact Hx.
  - exact H.
Defined.

Lemma every_stop_ends_the_worker_witness :
  running Sample.idle = true /\
  (let w2 := run (map AWorker (repeat Sample.fine 8) ++ [AJoin])
                 (step AStop Sample.idle) in
   wpc w2 = WExited /\ queue w2 = [] /\ mpc w2 = MRunning) /\
  (let w1 := step (ADeliver 0%nat (mkHeader 7 0 0 0) Sample.noon) Sample.idle in
   wpc (run (map AWorker (repeat Sample.fine 8)) w1) = WExited) /\
  running Sample.holding = true /\
  wpc (run (map AWorker (repeat Sample.fine 8))
           (preview_worker Sample.bind_fails Sample.holding)) = WExited.
Proof.
  assert (Hi : running Sample.idle = true) by (vm_compute; reflexivity).
  assert (Hh : running Sample.holding = true) by (vm_compute; reflexivity).
  destruct (every_stop_ends_the_worker Sample.idle (repeat Sample.fine 8) Hi)
    as (E & S & _).
  destruct (every_stop_ends_the_worker Sample.holding (repeat Sample.fine 8) Hh)
    as (_ & _ & F).
  split; [exact Hi|]. split; [| split; [| split; [exact Hh|]]].
  - apply S; [vm_compute; reflexivity | vm_compute; reflexivity | vm_compute; lia].
  - eapply proj1. apply (E 0%nat (mkHeader 7 0 0 0) Sample.noon);
      [vm_compute; reflexivity | reflexivity | vm_compute; lia].
  - eapply proj1. apply (F Sample.bind_fails 0%nat);
      [vm_compute; reflexivity | vm_compute; reflexivity
      | vm_compute; reflexivity | vm_compute; lia].
Defined.

(** ** Where the written specification and the code part ways
    The specification of the pipeline promises more than the code does in a
    few places.  Each lemma below runs the code on a sample and shows the
    promise failing there. *)

(** Frames stamped 1000, 2000, 1500: the times are 1.0, 2.0, 1.5 and the last
    interval is -0.5.  The sign correction looks at the time, not at the
    interval. *)
Lemma later_frame_earlier_time :
  ~ interval_not_negative (st (run Sample.three_frames (configured Sample.pool3))).
Proof. unfold interval_not_negative. vm_compute. discriminate. Qed.

(** After the worker has set [preview_stop] itself, [raspitex_stop] returns
    at once while the worker has not exited. *)
Lemma stop_returns_while_worker_runs : ~ stop_waits_for_worker Sample.failed.
Proof.
  unfold stop_waits_for_worker. intros H.
  assert (E : mpc (raspitex_stop Sample.failed) = MRunning) by (vm_compute; reflexivity).
  specialize (H E). vm_compute in H. discriminate.
Qed.

(** A failed [eglSwapBuffers] leaves [preview_stop] clear and the worker in
    its loop. *)
Lemma present_failure_goes_unnoticed :
  ~ present_failure_is_fatal Sample.swap_fails Sample.holding.
Proof.
  unfold present_failure_is_fatal. intros H.
  destruct (H 0%nat [EvSwap 0%nat false; EvRedraw 0%nat 0; EvBind 0%nat]) as [H1 _].
  - vm_compute. reflexivity.
  - simpl. left. reflexivity.
  - apply H1. vm_compute. reflexivity.
Qed.

(** An idle worker goes round its loop without a single yield. *)
Lemma idle_round_without_yield :
  ~ idle_retry_yields Sample.idle (repeat (AWorker Sample.fine) 3).
Proof.
  unfold idle_retry_yields. intros H.
  assert (Hin : In EvYield
                  (new_events_since Sample.idle
                     (run (repeat (AWorker Sample.fine) 3) Sample.idle))).
  { apply H.
    - vm_compute. reflexivity.
    - vm_compute. reflexivity.
    - repeat constructor; eexists; reflexivity.
    - discriminate.
    - vm_compute. reflexivity. }
  vm_compute in Hin. exact Hin.
Qed.

(** The second frame fails to bind: the worker exits, and neither the header
    it had retained nor the one that failed is released. *)
Lemma bind_failure_leaves_both_headers :
  let w := run Sample.second_bind_fails (configured Sample.pool3) in
  wpc w = WExited /\ preview_stop (st w) = 1 /\
  preview_buf (st w) = Some 0%nat /\
  ~ In (EvRelease 0%nat) (trace w) /\ ~ In (EvRelease 1%nat) (trace w) /\
  owned 1%nat w = 0%nat /\ pool_queue w = [].
Proof.
  vm_compute. repeat split; try reflexivity; intuition discriminate.
Qed.

(** A pool of one header, one frame drawn, then [raspitex_stop] with its
    join: the header is still in [preview_buf] and the pool is empty. *)
Lemma retained_header_stays_out :
  let w := run Sample.one_frame_then_stop (configured [0%nat]) in
  mpc w = MRunning /\ wpc w = WExited /\ queue w = [] /\
  preview_buf (st w) = Some 0%nat /\ pool_queue w = [] /\ port w = [].
Proof.
  vm_compute. repeat split; reflexivity.
Qed.
